(** * securepass: a shallow embedding of the analysis core and the generator

    The Python package [securepass] is embedded module by module:
    [securepass.core.entropy], [securepass.utils.patterns],
    [securepass.utils.wordlist], [securepass.core.breach],
    [securepass.core.analyzer] and [securepass.core.generator].
    Definitions come first, the theorems about them follow. *)

From Stdlib Require Import ZArith QArith String Ascii List Permutation.
From stdpp Require Import base gmap sets list strings.

Local Open Scope string_scope.
Local Open Scope Z_scope.

(** ** Python builtins used by the package *)

Module Py.

(** A [str] is a Rocq [string]: one [ascii] per character, so the
    characters are the code points 0..255. *)
Definition chars (s : string) : list ascii := list_ascii_of_string s.
Definition join (l : list ascii) : string := string_of_list_ascii l.

(** [ord(c)] *)
Definition ord (c : ascii) : Z := Z.of_N (N_of_ascii c).

(** [len(s)] *)
Definition len (s : string) : Z := Z.of_nat (String.length s).

(** [not s] for a string: true exactly on the empty string. *)
Definition is_empty (s : string) : bool :=
  match s with EmptyString => true | String _ _ => false end.

(** [c in s] for a one-character [c]. *)
Definition char_in (c : ascii) (s : string) : bool :=
  existsb (Ascii.eqb c) (chars s).

(** [sub in s]: [sub] occurs in [s] as a contiguous substring. *)
Fixpoint contains (sub s : string) : bool :=
  String.prefix sub s ||
  match s with
  | EmptyString => false
  | String _ s' => contains sub s'
  end.

(** Slice bounds as Python normalises them: a negative bound counts from
    the end, and both are clamped to [0, n]. *)
Definition slice_bound (n i : Z) : Z :=
  if i <? 0 then Z.max 0 (i + n) else Z.min i n.

(** [l[i:j]] *)
Definition slice {A} (l : list A) (i j : Z) : list A :=
  let n := Z.of_nat (length l) in
  let a := slice_bound n i in
  let b := slice_bound n j in
  take (Z.to_nat (b - a)) (drop (Z.to_nat a) l).

(** Exceptions raised or caught by the modelled code.  All of them are
    subclasses of [Exception]. *)
Inductive exn : Type :=
| ValueError (msg : string)
| TypeError (msg : string)
| IndexError (msg : string)
| FileNotFoundError (msg : string)
| RequestException (msg : string)
| OtherException (msg : string).

(** The outcome of a call: a value, or a raised exception. *)
Inductive result (A : Type) : Type :=
| Ok (a : A)
| Raise (e : exn).
Arguments Ok {A} a.
Arguments Raise {A} e.

(** A [float] up to comparison: not-a-number, an infinity, or a finite
    value, which is a rational.  Python compares a float with an integer
    exactly, and every comparison with a NaN is false. *)
Inductive pyfloat : Type :=
| Fnan
| Finf (negative : bool)
| Ffin (q : Q).

(** [x >= n] for a float [x] and an integer literal [n]. *)
Definition float_ge (x : pyfloat) (n : Z) : bool :=
  match x with
  | Fnan => false
  | Finf negative => negb negative
  | Ffin q => Qle_bool (inject_Z n) q
  end.

(** [x <= n] for a float [x] and an integer [n]. *)
Definition float_le (x : pyfloat) (n : Z) : bool :=
  match x with
  | Fnan => false
  | Finf negative => negative
  | Ffin q => Qle_bool q (inject_Z n)
  end.

(** [float(n)] for an integer that a float represents exactly. *)
Definition float_of_int (n : Z) : pyfloat := Ffin (inject_Z n).

(** The arguments a caller may pass where an integer is expected. *)
Inductive pyobj : Type :=
| PyInt (z : Z)
| PyBool (b : bool)
| PyFloat (x : pyfloat)
| PyStr (s : string)
| PyNone.

(** [isinstance(x, int)]; [bool] is a subclass of [int]. *)
Definition as_int (x : pyobj) : option Z :=
  match x with
  | PyInt z => Some z
  | PyBool b => Some (if b then 1 else 0)
  | _ => None
  end.

(** The [string] module's constants. *)
Definition ascii_lowercase : string := "abcdefghijklmnopqrstuvwxyz".
Definition ascii_uppercase : string := "ABCDEFGHIJKLMNOPQRSTUVWXYZ".
Definition digits : string := "0123456789".
Definition punctuation : string :=
  String "!" (String "034" "#$%&'()*+,-./:;<=>?@[\]^_`{|}~").

End Py.
Import Py.

(** ** securepass.core.entropy *)

Module Entropy.

(** [any(c in cls for c in password)] *)
Definition any_in (cls password : string) : bool :=
  existsb (fun c => char_in c cls) (chars password).

Definition get_character_pool_size (password : string) : Z :=
  if is_empty password then 0
  else
    let pool_size := 0 in
    let pool_size :=
      if any_in ascii_lowercase password then pool_size + 26 else pool_size in
    let pool_size :=
      if any_in ascii_uppercase password then pool_size + 26 else pool_size in
    let pool_size :=
      if any_in digits password then pool_size + 10 else pool_size in
    let pool_size :=
      if any_in punctuation password then pool_size + 32 else pool_size in
    pool_size.

(** The literal [0.0]. *)
Definition zero : pyfloat := Ffin 0%Q.

Section FloatOps.
(** [math.log2] on an integer and the product of two floats are the
    platform's; the package only composes them. *)
Variable log2 : Z -> pyfloat.
Variable fmul : pyfloat -> pyfloat -> pyfloat.

Definition calculate_entropy (password : string) : pyfloat * Z :=
  if is_empty password then (zero, 0)
  else
    let pool_size := get_character_pool_size password in
    if pool_size =? 0 then (zero, 0)
    else
      let entropy_bits := fmul (log2 pool_size) (float_of_int (len password)) in
      (entropy_bits, pool_size).
End FloatOps.

End Entropy.

(** ** securepass.utils.patterns *)

Module Patterns.

Definition COMMON_PATTERNS : list string :=
  [ "password"; "123456"; "qwerty"; "abc123"; "letmein"; "welcome";
    "monkey"; "dragon"; "master"; "admin"; "login"; "passw0rd";
    "password1"; "123456789"; "12345678"; "iloveyou"; "princess";
    "trustno1"; "superman"; "baseball" ].

Section Lower.
(** [str.lower] *)
Variable lower : string -> string.

Definition has_common_pattern (password : string) : bool :=
  if is_empty password then false
  else
    let password_lower := lower password in
    existsb (fun pattern => contains pattern password_lower) COMMON_PATTERNS.
End Lower.

(** The inner loop over [j in range(len(substring) - 1)]: every character
    is [step] above the one before it; stops at the first pair that is
    not. *)
Fixpoint all_steps (step : Z) (substring : list ascii) : bool :=
  match substring with
  | a :: (b :: _) as rest =>
      if ord b =? ord a + step then all_steps step rest else false
  | _ => true
  end.

(** [range(n)] *)
Definition range (n : Z) : list Z := map Z.of_nat (seq 0 (Z.to_nat n)).

(** The loop over the window starts [i]; returns at the first window that
    is an ascending or a descending run. *)
Fixpoint scan_windows (cs : list ascii) (min_length : Z) (starts : list Z) : bool :=
  match starts with
  | [] => false
  | i :: rest =>
      let substring := slice cs i (i + min_length) in
      let is_sequential := all_steps 1 substring in
      if is_sequential then true
      else
        let is_reverse_sequential := all_steps (-1) substring in
        if is_reverse_sequential then true
        else scan_windows cs min_length rest
  end.

Definition has_sequential_chars (password : string) (min_length : Z) : bool :=
  if is_empty password || (len password <? min_length) then false
  else scan_windows (chars password) min_length
         (range (len password - min_length + 1)).

(** The default [min_length=3]. *)
Definition has_sequential_chars_default (password : string) : bool :=
  has_sequential_chars password 3.

End Patterns.

(** ** securepass.utils.wordlist *)

Module Wordlist.

Section Builtins.
(** [str.lower] and [str.strip] are the interpreter's. *)
Variable lower : string -> string.
Variable strip : string -> string.
(** Where [common_passwords.txt] is looked for. *)
Variable data_path : string.

(** The set built from the lines of the file: each line stripped and
    lowercased, empty words skipped. *)
Definition read_words (lines : list string) : gset string :=
  foldl (fun wordlist line =>
           let word := lower (strip line) in
           if is_empty word then wordlist else wordlist ∪ {[ word ]})
        ∅ lines.

(** [file] is the content of the data file when it is there and is read
    to its end, [None] when the file does not exist ([load_wordlist_from]
    below adds the file that cannot be read); [cache] is the module-level
    [_WORDLIST_CACHE].  Returns the outcome and the cache afterwards. *)
Definition load_wordlist (file : option (list string))
    (cache : option (gset string)) : result (gset string) * option (gset string) :=
  match cache with
  | Some wordlist => (Ok wordlist, cache)
  | None =>
      match file with
      | None =>
          (Raise (FileNotFoundError
             ("Common passwords file not found at: " ++ data_path ++
              String "010" "Please ensure data/common_passwords.txt exists.")),
           cache)
      | Some lines =>
          let wordlist := read_words lines in
          (Ok wordlist, Some wordlist)
      end
  end.

(** The loop [for word in wordlist]; a set has no order of its own, the
    loop runs over its elements in some order. *)
Definition any_word_inside (wordlist : gset string) (password_lower : string) : bool :=
  existsb (fun word => (4 <=? len word) && contains word password_lower)
          (elements wordlist).

Definition contains_dictionary_word (password : string)
    (file : option (list string)) (cache : option (gset string))
  : result bool * option (gset string) :=
  if is_empty password then (Ok false, cache)
  else
    match load_wordlist file cache with
    | (Raise (FileNotFoundError _), cache') => (Ok false, cache')
    | (Raise e, cache') => (Raise e, cache')
    | (Ok wordlist, cache') =>
        let password_lower := lower password in
        if bool_decide (password_lower ∈ wordlist) then (Ok true, cache')
        else if any_word_inside wordlist password_lower then (Ok true, cache')
        else (Ok false, cache')
    end.

(** The data file as the load finds it: absent; present with these lines;
    or present but raising [e] when it is opened or read (a directory, no
    permission, bytes that are no UTF-8). *)
Inductive data_file : Type :=
| Absent
| Lines (lines : list string)
| Unreadable (e : exn).

(** [load_wordlist] over every state of the file.  The cache is assigned
    after the last line is read, so a load that raises leaves it as it
    was. *)
Definition load_wordlist_from (file : data_file)
    (cache : option (gset string)) : result (gset string) * option (gset string) :=
  match cache with
  | Some wordlist => (Ok wordlist, cache)
  | None =>
      match file with
      | Absent => load_wordlist None cache
      | Lines lines => load_wordlist (Some lines) cache
      | Unreadable e => (Raise e, cache)
      end
  end.

(** [contains_dictionary_word] over every state of the file: only a
    [FileNotFoundError] is caught. *)
Definition contains_dictionary_word_from (password : string)
    (file : data_file) (cache : option (gset string))
  : result bool * option (gset string) :=
  if is_empty password then (Ok false, cache)
  else
    match load_wordlist_from file cache with
    | (Raise (FileNotFoundError _), cache') => (Ok false, cache')
    | (Raise e, cache') => (Raise e, cache')
    | (Ok wordlist, cache') =>
        let password_lower := lower password in
        if bool_decide (password_lower ∈ wordlist) then (Ok true, cache')
        else if any_word_inside wordlist password_lower then (Ok true, cache')
        else (Ok false, cache')
    end.
End Builtins.

End Wordlist.

(** ** securepass.core.entropy, continued: the crack times *)

Module CrackTime.

(** [x < q] for a float [x] and a number [q]. *)
Definition float_lt (x : pyfloat) (q : Q) : bool :=
  match x with
  | Fnan => false
  | Finf negative => negative
  | Ffin p => negb (Qle_bool q p)
  end.

Section FloatOps.
(** The platform's [2.0 ** x] where it does not overflow, its division of
    a float by an integer, and the format [{x:.Nf}]. *)
Variable exp2 : Q -> pyfloat.
Variable fdiv : pyfloat -> Z -> pyfloat.
Variable fixed : nat -> pyfloat -> string.

(** [2 ** x] for a float [x]: a finite [x] from 1024 on is beyond the
    largest float and raises [OverflowError]; an infinite or undefined [x]
    does not raise. *)
Definition pow2 (x : pyfloat) : result pyfloat :=
  match x with
  | Fnan => Ok Fnan
  | Finf negative => Ok (if negative then Ffin 0 else Finf false)
  | Ffin q =>
      if Qle_bool 1024 q then
        Raise (OtherException "OverflowError: (34, 'Numerical result out of range')")
      else Ok (exp2 q)
  end.

(** The literal [0.001] is the float nearest to 1/1000, which lies above
    it with no float in between: for a float, being below the one is being
    below the other. *)
Definition _format_time (seconds : pyfloat) : string :=
  if float_lt seconds (1 # 1000) then "instant"
  else if float_lt seconds 1 then fixed 3 seconds ++ " seconds"
  else if float_lt seconds 60 then fixed 1 seconds ++ " seconds"
  else if float_lt seconds 3600 then
    let minutes := fdiv seconds 60 in fixed 1 minutes ++ " minutes"
  else if float_lt seconds 86400 then
    let hours := fdiv seconds 3600 in fixed 1 hours ++ " hours"
  else if float_lt seconds 604800 then
    let days := fdiv seconds 86400 in fixed 1 days ++ " days"
  else if float_lt seconds 2592000 then
    let weeks := fdiv seconds 604800 in fixed 1 weeks ++ " weeks"
  else if float_lt seconds 31536000 then
    let months := fdiv seconds 2592000 in fixed 1 months ++ " months"
  else if float_lt seconds 3153600000 then
    let years := fdiv seconds 31536000 in fixed 1 years ++ " years"
  else if float_lt seconds 31536000000 then
    let centuries := fdiv seconds 3153600000 in fixed 1 centuries ++ " centuries"
  else
    let millennia := fdiv seconds 31536000000 in fixed 1 millennia ++ " millennia".

Definition estimate_crack_time (entropy_bits : pyfloat)
  : result (gmap string string) :=
  if float_le entropy_bits 0 then
    Ok (<["offline_attack_10B_per_second" := "instant"]>
          (<["online_attack_100_per_second" := "instant"]> ∅))
  else
    match pow2 entropy_bits with
    | Raise e => Raise e
    | Ok combinations =>
        let online_seconds := fdiv combinations 100 in
        let online_time := _format_time online_seconds in
        let offline_seconds := fdiv combinations 10000000000 in
        let offline_time := _format_time offline_seconds in
        Ok (<["offline_attack_10B_per_second" := offline_time]>
              (<["online_attack_100_per_second" := online_time]> ∅))
    end.
End FloatOps.

End CrackTime.

(** ** hashlib.sha1, as FIPS 180-4 defines it, on 32-bit words kept in [Z] *)

Module Sha1.

Definition w32 (x : Z) : Z := x mod 4294967296.

Definition add32 (a b : Z) : Z := w32 (a + b).

Definition rotl (n x : Z) : Z :=
  w32 (Z.lor (Z.shiftl x n) (Z.shiftr x (32 - n))).

Definition not32 (x : Z) : Z := Z.lxor x 4294967295.

(** [str.encode('utf-8')] on the code points 0..255. *)
Definition encode_utf8 (s : string) : list Z :=
  flat_map (fun c => let n := ord c in
                     if n <? 128 then [n] else [192 + n / 64; 128 + n mod 64])
           (chars s).

(** The message length in bits as eight big-endian bytes. *)
Definition length_bytes (bits : Z) : list Z :=
  map (fun i => Z.shiftr bits (8 * (7 - Z.of_nat i)) mod 256) (seq 0 8).

Definition pad (msg : list Z) : list Z :=
  let n := Z.of_nat (length msg) in
  msg ++ 128 :: repeat 0 (Z.to_nat ((55 - n) mod 64)) ++ length_bytes (8 * n).

Fixpoint words (bytes : list Z) : list Z :=
  match bytes with
  | a :: b :: c :: d :: rest =>
      (a * 16777216 + b * 65536 + c * 256 + d) :: words rest
  | _ => []
  end.

Fixpoint blocks (n : nat) (ws : list Z) : list (list Z) :=
  match n with
  | O => []
  | S k => take 16 ws :: blocks k (drop 16 ws)
  end.

(** The message schedule: [k] more words after those of [w]. *)
Fixpoint extend (k : nat) (w : list Z) : list Z :=
  match k with
  | O => w
  | S k' =>
      let t := length w in
      let x := Z.lxor (Z.lxor (nth (t - 3) w 0) (nth (t - 8) w 0))
                      (Z.lxor (nth (t - 14) w 0) (nth (t - 16) w 0)) in
      extend k' (w ++ [rotl 1 x])
  end.

Definition f (t : nat) (b c d : Z) : Z :=
  if (t <? 20)%nat then Z.lor (Z.land b c) (Z.land (not32 b) d)
  else if (t <? 40)%nat then Z.lxor (Z.lxor b c) d
  else if (t <? 60)%nat then Z.lor (Z.lor (Z.land b c) (Z.land b d)) (Z.land c d)
  else Z.lxor (Z.lxor b c) d.

Definition K (t : nat) : Z :=
  if (t <? 20)%nat then 1518500249
  else if (t <? 40)%nat then 1859775393
  else if (t <? 60)%nat then 2400959708
  else 3395469782.

Definition state : Type := Z * Z * Z * Z * Z.

Definition round (s : state) (tw : nat * Z) : state :=
  let '(a, b, c, d, e) := s in
  let '(t, w) := tw in
  let temp := add32 (add32 (add32 (add32 (rotl 5 a) (f t b c d)) e) (K t)) w in
  (temp, a, rotl 30 b, c, d).

Definition compress (h : state) (block : list Z) : state :=
  let w := extend 64 block in
  let '(a, b, c, d, e) := foldl round h (zip (seq 0 80) w) in
  let '(h0, h1, h2, h3, h4) := h in
  (add32 h0 a, add32 h1 b, add32 h2 c, add32 h3 d, add32 h4 e).

Definition initial : state :=
  (1732584193, 4023233417, 2562383102, 271733878, 3285377520).

Definition digest (msg : list Z) : state :=
  let ws := words (pad msg) in
  foldl compress initial (blocks (length ws / 16) ws).

Definition hex_digit (n : Z) : ascii :=
  nth (Z.to_nat (n mod 16)) (chars "0123456789abcdef") "0"%char.

(** Eight lowercase hexadecimal digits of a 32-bit word. *)
Definition hex_word (x : Z) : list ascii :=
  map (fun i => hex_digit (Z.shiftr x (4 * (7 - Z.of_nat i)))) (seq 0 8).

(** [hashlib.sha1(msg).hexdigest()] *)
Definition hexdigest (msg : list Z) : string :=
  let '(h0, h1, h2, h3, h4) := digest msg in
  join (hex_word h0 ++ hex_word h1 ++ hex_word h2 ++ hex_word h3 ++ hex_word h4).

End Sha1.

(** ** securepass.core.breach *)

Module Breach.

(** [str.upper] on an ASCII string, as the digest is. *)
Definition upper_char (c : ascii) : ascii :=
  let n := ord c in
  if (97 <=? n) && (n <=? 122) then ascii_of_N (Z.to_N (n - 32)) else c.

Definition upper (s : string) : string := join (map upper_char (chars s)).

Definition _sha1_hash (password : string) : string :=
  upper (Sha1.hexdigest (Sha1.encode_utf8 password)).

(** What [check_breach] does to the outside world, in order. *)
Inductive event : Type :=
| Request (hash_prefix : string) (timeout : Z)
| Sleep (seconds : Z)
| PrintFailed (max_retries : Z) (e : exn)
| PrintContinue.

(** The answers of [_api_request]: call number [attempt] with the given
    prefix and timeout returns the parsed (suffix, count) pairs or
    raises.  The tests patch [_api_request] in the same way. *)
Definition api : Type := Z -> string -> Z -> result (list (string * Z)).

(** The scan [for returned_suffix, count in suffixes]. *)
Fixpoint find_suffix (suffixes : list (string * Z)) (hash_suffix : string)
  : bool * Z :=
  match suffixes with
  | [] => (false, 0)
  | (returned_suffix, count) :: rest =>
      if String.eqb returned_suffix hash_suffix then (true, count)
      else find_suffix rest hash_suffix
  end.

(** The loop [for attempt in range(max_retries)], from [attempt] on with
    [remaining] iterations left.  [None] is Python's [None]: the loop
    ended without reaching a [return]. *)
Fixpoint attempts (_api_request : api) (hash_prefix hash_suffix : string)
    (timeout max_retries : Z) (remaining : nat) (attempt : Z)
  : option (bool * Z) * list event :=
  match remaining with
  | O => (None, [])
  | S remaining' =>
      match _api_request attempt hash_prefix timeout with
      | Ok suffixes =>
          (Some (find_suffix suffixes hash_suffix),
           [Request hash_prefix timeout])
      | Raise e =>
          if attempt <? max_retries - 1 then
            let wait_time := 2 ^ attempt in
            let '(r, evs) :=
              attempts _api_request hash_prefix hash_suffix timeout
                       max_retries remaining' (attempt + 1) in
            (r, Request hash_prefix timeout :: Sleep wait_time :: evs)
          else
            (Some (false, 0),
             [Request hash_prefix timeout;
              PrintFailed max_retries e; PrintContinue])
      end
  end.

Definition check_breach (_api_request : api) (password : string)
    (timeout max_retries : Z) : option (bool * Z) * list event :=
  if is_empty password then (Some (false, 0), [])
  else
    let full_hash := _sha1_hash password in
    let hash_prefix := join (slice (chars full_hash) 0 5) in
    let hash_suffix := join (slice (chars full_hash) 5 (len full_hash)) in
    attempts _api_request hash_prefix hash_suffix timeout max_retries
             (Z.to_nat max_retries) 0.

(** The defaults [timeout=10, max_retries=3]. *)
Definition check_breach_default (_api_request : api) (password : string)
  : option (bool * Z) * list event :=
  check_breach _api_request password 10 3.

End Breach.

(** ** securepass.core.analyzer *)

Module Analyzer.

(** The [breach_status] dictionary: its three keys are fixed. *)
Record breach_status : Type := {
  checked : bool;
  found : bool;
  occurrence_count : Z
}.

(** [PasswordAnalysis], without the fields that hold the SHA-256
    fingerprint, the clock reading and the recommendation texts. *)
Record PasswordAnalysis : Type := {
  strength_score : Z;
  strength_rating : string;
  length : Z;
  entropy_bits : pyfloat;
  character_pool_size : Z;
  criteria_met : gmap string bool;
  breach : breach_status;
  estimated_crack_time : gmap string string
}.

(** [sum(10 for passed in criteria.values() if passed)] *)
Definition base_score (criteria : gmap string bool) : Z :=
  foldr Z.add 0
    (map (fun _ : bool => 10)
         (List.filter (fun passed : bool => passed)
                      (map snd (map_to_list criteria)))).

Definition calculate_strength_score (criteria : gmap string bool)
    (entropy : pyfloat) : Z :=
  let base_score := base_score criteria in
  let entropy_bonus :=
    if float_ge entropy 70 then 20
    else if float_ge entropy 60 then 15
    else if float_ge entropy 50 then 10
    else if float_ge entropy 40 then 5
    else 0 in
  let total_score := base_score + entropy_bonus in
  Z.min total_score 100.

Definition _determine_rating (score : Z) : string :=
  if score <? 40 then "weak"
  else if score <? 70 then "moderate"
  else if score <? 90 then "strong"
  else "very_strong".

Section Environment.
Variable lower : string -> string.
Variable strip : string -> string.
Variable data_path : string.
Variable log2 : Z -> pyfloat.
Variable fmul : pyfloat -> pyfloat -> pyfloat.
Variable exp2 : Q -> pyfloat.
Variable fdiv : pyfloat -> Z -> pyfloat.
Variable fixed : nat -> pyfloat -> string.
(** [check_breach] as the analyzer sees it: it returns a pair, returns
    something that is no pair ([None]), or raises. *)
Variable check_breach : string -> result (option (bool * Z)).

Definition _check_criteria (password : string)
    (file : Wordlist.data_file) (cache : option (gset string))
  : result (gmap string bool) * option (gset string) :=
  let criteria : gmap string bool := ∅ in
  let criteria := <["min_length" := (12 <=? len password)]> criteria in
  let criteria :=
    <["has_lowercase" := Entropy.any_in ascii_lowercase password]> criteria in
  let criteria :=
    <["has_uppercase" := Entropy.any_in ascii_uppercase password]> criteria in
  let criteria := <["has_digits" := Entropy.any_in digits password]> criteria in
  let criteria :=
    <["has_symbols" := Entropy.any_in punctuation password]> criteria in
  let criteria :=
    <["no_common_patterns" := negb (Patterns.has_common_pattern lower password)]>
      criteria in
  match Wordlist.contains_dictionary_word_from lower strip data_path
          password file cache with
  | (Raise e, cache') => (Raise e, cache')
  | (Ok in_dictionary, cache') =>
      let criteria :=
        <["no_dictionary_words" := negb in_dictionary]> criteria in
      let criteria :=
        <["no_sequential_chars" :=
            negb (Patterns.has_sequential_chars_default password)]> criteria in
      (Ok criteria, cache')
  end.

Definition not_checked : breach_status :=
  {| checked := false; found := false; occurrence_count := 0 |}.

(** The record is built after the crack times are estimated: an
    exception of that step, or of the dictionary check before it, leaves
    no record. *)
Definition analyze_password (password : string) (check_breach_status : bool)
    (file : Wordlist.data_file) (cache : option (gset string))
  : result PasswordAnalysis * option (gset string) :=
  let '(entropy_bits, pool_size) := Entropy.calculate_entropy log2 fmul password in
  match _check_criteria password file cache with
  | (Raise e, cache') => (Raise e, cache')
  | (Ok criteria, cache') =>
      let strength_score := calculate_strength_score criteria entropy_bits in
      let strength_rating := _determine_rating strength_score in
      let breach_status :=
        if check_breach_status then
          match check_breach password with
          | Ok (Some (is_breached, breach_count)) =>
              {| checked := true; found := is_breached;
                 occurrence_count := breach_count |}
          | Ok None => not_checked
          | Raise e => not_checked
          end
        else not_checked in
      match CrackTime.estimate_crack_time exp2 fdiv fixed entropy_bits with
      | Raise e => (Raise e, cache')
      | Ok crack_time =>
          (Ok {| strength_score := strength_score;
                 strength_rating := strength_rating;
                 length := len password;
                 entropy_bits := entropy_bits;
                 character_pool_size := pool_size;
                 criteria_met := criteria;
                 breach := breach_status;
                 estimated_crack_time := crack_time |},
           cache')
      end
  end.
End Environment.

End Analyzer.

(** ** securepass.core.generator *)

Module Generator.

Definition LOWERCASE : string := ascii_lowercase.
Definition UPPERCASE : string := ascii_uppercase.
Definition DIGITS : string := digits.
Definition SYMBOLS : string := punctuation.
Definition AMBIGUOUS : string := "0O1lI".

(** The system's random source: an unbounded sequence of draws and the
    number of draws consumed so far.  Every sequence of outcomes is the
    behaviour of some source. *)
Record rng : Type := { draws : nat -> nat; pos : nat }.

(** A computation that consumes randomness and may raise. *)
Definition Rand (A : Type) : Type := rng -> result A * rng.

Definition ret {A} (a : A) : Rand A := fun g => (Ok a, g).
Definition raise {A} (e : exn) : Rand A := fun g => (Raise e, g).
Definition bind {A B} (m : Rand A) (k : A -> Rand B) : Rand B :=
  fun g =>
    match m g with
    | (Ok a, g') => k a g'
    | (Raise e, g') => (Raise e, g')
    end.

#[export] Instance rand_ret : MRet Rand := @ret.
#[export] Instance rand_bind : MBind Rand := fun A B k m => bind m k.

(** [_randbelow(n)] for [n > 0]: some number below [n]. *)
Definition randbelow (n : nat) : Rand nat :=
  fun g => (Ok (draws g (pos g) mod n)%nat,
            {| draws := draws g; pos := S (pos g) |}).

(** [secrets.choice(seq)] *)
Definition choice {A} (seq : list A) : Rand A :=
  match seq with
  | [] => raise (IndexError "Cannot choose from an empty sequence")
  | first :: _ =>
      i ← randbelow (List.length seq);
      ret (nth i seq first)
  end.

(** [x[i], x[j] = x[j], x[i]] *)
Definition swap {A} (x : list A) (i j : nat) : Rand (list A) :=
  match x !! j, x !! i with
  | Some xj, Some xi => ret (<[j := xi]> (<[i := xj]> x))
  | _, _ => raise (IndexError "list index out of range")
  end.

(** The loop of [random.shuffle]: [for i in reversed(range(1, len(x)))],
    here from [i] down to 1. *)
Fixpoint shuffle_from {A} (i : nat) (x : list A) : Rand (list A) :=
  match i with
  | O => ret x
  | S i' =>
      j ← randbelow (i + 1);
      x' ← swap x i j;
      shuffle_from i' x'
  end.

(** [SystemRandom().shuffle(x)] *)
Definition shuffle {A} (x : list A) : Rand (list A) :=
  shuffle_from (List.length x - 1) x.

(** [''.join(c for c in chars if c not in AMBIGUOUS)] *)
Definition without_ambiguous (chars_ : string) : string :=
  join (List.filter (fun c => negb (char_in c AMBIGUOUS)) (chars chars_)).

(** [for _ in range(remaining_length): password_chars.append(secrets.choice(char_pool))] *)
Fixpoint fill (remaining_length : nat) (char_pool : string)
    (password_chars : list ascii) : Rand (list ascii) :=
  match remaining_length with
  | O => ret password_chars
  | S k =>
      c ← choice (chars char_pool);
      fill k char_pool (password_chars ++ [c])%list
  end.

Definition generate_password (length : pyobj)
    (use_lowercase use_uppercase use_digits use_symbols avoid_ambiguous : bool)
  : Rand string :=
  match as_int length with
  | None => raise (ValueError "Length must be an integer")
  | Some length =>
      if length <? 8 then
        raise (ValueError "Password length must be at least 8 characters")
      else if length >? 128 then
        raise (ValueError "Password length must not exceed 128 characters")
      else
        let char_pool := "" in
        let required_chars : list ascii := [] in
        '(char_pool, required_chars) ←
          (if use_lowercase then
             let chars_ := LOWERCASE in
             let chars_ :=
               if avoid_ambiguous then without_ambiguous chars_ else chars_ in
             c ← choice (chars chars_);
             ret (char_pool ++ chars_, (required_chars ++ [c])%list)
           else ret (char_pool, required_chars));
        '(char_pool, required_chars) ←
          (if use_uppercase then
             let chars_ := UPPERCASE in
             let chars_ :=
               if avoid_ambiguous then without_ambiguous chars_ else chars_ in
             c ← choice (chars chars_);
             ret (char_pool ++ chars_, (required_chars ++ [c])%list)
           else ret (char_pool, required_chars));
        '(char_pool, required_chars) ←
          (if use_digits then
             let chars_ := DIGITS in
             let chars_ :=
               if avoid_ambiguous then without_ambiguous chars_ else chars_ in
             c ← choice (chars chars_);
             ret (char_pool ++ chars_, (required_chars ++ [c])%list)
           else ret (char_pool, required_chars));
        '(char_pool, required_chars) ←
          (if use_symbols then
             c ← choice (chars SYMBOLS);
             ret (char_pool ++ SYMBOLS, (required_chars ++ [c])%list)
           else ret (char_pool, required_chars));
        if is_empty char_pool then
          raise (ValueError "At least one character set must be selected")
        else
          let password_chars := required_chars in
          let remaining_length := length - Z.of_nat (List.length required_chars) in
          password_chars ←
            fill (Z.to_nat remaining_length) char_pool password_chars;
          password_chars ← shuffle password_chars;
          ret (join password_chars)
  end.

End Generator.

(** ** The specification's vocabulary *)

Module Spec.

(** The eight named checks. *)
Definition criteria_names : gset string :=
  {[ "min_length"; "has_lowercase"; "has_uppercase"; "has_digits";
     "has_symbols"; "no_common_patterns"; "no_dictionary_words";
     "no_sequential_chars" ]}.

(** The number of criteria met: the keys whose value is true. *)
Definition criteria_count (criteria : gmap string bool) : Z :=
  Z.of_nat (size (filter (fun kv : string * bool => kv.2 = true) criteria)).

(** Every criterion of the mapping has the value [b]. *)
Definition all_criteria (b : bool) (criteria : gmap string bool) : Prop :=
  map_Forall (fun _ v => v = b) criteria.

(** The mapping that gives every one of the eight checks the value [b]. *)
Definition uniform_criteria (b : bool) : gmap string bool :=
  gset_to_gmap b criteria_names.

(** The entropy bonus tiers: 20 from 70 bits, else 15 from 60, else 10
    from 50, else 5 from 40, else 0. *)
Definition tier_bonus (entropy : pyfloat) : Z :=
  if float_ge entropy 70 then 20
  else if float_ge entropy 60 then 15
  else if float_ge entropy 50 then 10
  else if float_ge entropy 40 then 5
  else 0.

(** The character classes, by code point. *)
Definition lowercase_letter (c : ascii) : bool :=
  (97 <=? ord c) && (ord c <=? 122).
Definition uppercase_letter (c : ascii) : bool :=
  (65 <=? ord c) && (ord c <=? 90).
Definition digit (c : ascii) : bool :=
  (48 <=? ord c) && (ord c <=? 57).
Definition ascii_punctuation (c : ascii) : bool :=
  ((33 <=? ord c) && (ord c <=? 47)) || ((58 <=? ord c) && (ord c <=? 64))
  || ((91 <=? ord c) && (ord c <=? 96)) || ((123 <=? ord c) && (ord c <=? 126)).

(** A class is active when some character of the password is in it. *)
Definition present (cls : ascii -> bool) (password : string) : bool :=
  existsb cls (chars password).

(** The sum of the sizes of the active classes. *)
Definition class_sum (password : string) : Z :=
  (if present lowercase_letter password then 26 else 0)
  + (if present uppercase_letter password then 26 else 0)
  + (if present digit password then 10 else 0)
  + (if present ascii_punctuation password then 32 else 0).

(** The three characters from position [i] on go up by [step] each. *)
Definition run_at (step : Z) (password : string) (i : nat) : Prop :=
  exists a b c : ascii,
    chars password !! i = Some a
    /\ chars password !! (i + 1)%nat = Some b
    /\ chars password !! (i + 2)%nat = Some c
    /\ ord b = ord a + step /\ ord c = ord b + step.

(** [sub] occurs in [s] as a contiguous substring. *)
Definition substring (sub s : string) : Prop :=
  exists before after : string, s = before ++ sub ++ after.

(** The lowercased password equals a wordlist entry, or an entry of at
    least four characters occurs in it. *)
Definition dictionary_hit (wordlist : gset string) (lowered : string) : Prop :=
  lowered ∈ wordlist
  \/ exists word, word ∈ wordlist /\ 4 <= len word /\ substring word lowered.

(** The module-level cache is only written by [load_wordlist]: it is
    empty, or holds the words read from the file at some earlier time. *)
Definition cache_state (lower strip : string -> string)
    (cache : option (gset string)) : Prop :=
  cache = None
  \/ exists lines, cache = Some (Wordlist.read_words lower strip lines).

(** The 5-character prefix and the 35-character suffix of the uppercase
    hexadecimal SHA-1 of the password. *)
Definition sent_prefix (password : string) : string :=
  String.substring 0 5 (Breach._sha1_hash password).
Definition local_suffix (password : string) : string :=
  String.substring 5 35 (Breach._sha1_hash password).

(** The list contains a pair with this suffix. *)
Definition listed (suffixes : list (string * Z)) (suffix : string) : Prop :=
  exists count, (suffix, count) ∈ suffixes.

(** [count] belongs to the first pair of the list with this suffix. *)
Definition first_listed (suffixes : list (string * Z)) (suffix : string)
    (count : Z) : Prop :=
  exists before after,
    suffixes = (before ++ (suffix, count) :: after)%list
    /\ ~ listed before suffix.

(** What [n] failed attempts that are retried leave behind, from attempt
    number [attempt] on: a request and a sleep of [2 ^ attempt] seconds
    each. *)
Fixpoint retried (hash_prefix : string) (timeout attempt : Z) (n : nat)
  : list Breach.event :=
  match n with
  | O => []
  | S n' =>
      Breach.Request hash_prefix timeout :: Breach.Sleep (2 ^ attempt)
        :: retried hash_prefix timeout (attempt + 1) n'
  end.

(** The requests among the events. *)
Definition requests (evs : list Breach.event) : list string :=
  omap (fun ev => match ev with
                  | Breach.Request hash_prefix _ => Some hash_prefix
                  | _ => None
                  end) evs.

(** The sleeps among the events, in seconds. *)
Definition sleeps (evs : list Breach.event) : list Z :=
  omap (fun ev => match ev with
                  | Breach.Sleep seconds => Some seconds
                  | _ => None
                  end) evs.

(** The characters 0, O, 1, l, I. *)
Definition ambiguous (c : ascii) : bool :=
  (ord c =? 48) || (ord c =? 79) || (ord c =? 49) || (ord c =? 108)
  || (ord c =? 73).

(** The alphabet of a request: the union of the selected classes, the
    alphanumeric ones without the ambiguous characters when those are
    avoided. *)
Definition allowed (use_lowercase use_uppercase use_digits use_symbols
                    avoid_ambiguous : bool) (c : ascii) : bool :=
  (use_lowercase && lowercase_letter c && negb (avoid_ambiguous && ambiguous c))
  || (use_uppercase && uppercase_letter c && negb (avoid_ambiguous && ambiguous c))
  || (use_digits && digit c && negb (avoid_ambiguous && ambiguous c))
  || (use_symbols && ascii_punctuation c).

(** Some character of the password is in the class. *)
Definition has_char (cls : ascii -> bool) (password : string) : Prop :=
  exists c, c ∈ chars password /\ cls c = true.

(** A computation that, whatever the random source gives, returns a value
    satisfying [P]. *)
Definition always {A} (m : Generator.Rand A) (P : A -> Prop) : Prop :=
  forall g, exists a g', m g = (Ok a, g') /\ P a.

End Spec.

(** ** Scoring and rating *)

Module ScoreFacts.
Import Analyzer Spec.

(** The sum [sum(10 for passed in values if passed)] over a list. *)
Definition tens (values : list bool) : Z :=
  foldr Z.add 0 (map (fun _ : bool => 10) (List.filter (fun p : bool => p) values)).

Lemma tens_cons (b : bool) (values : list bool) :
  tens (b :: values) = (if b then 10 else 0) + tens values.
Proof. unfold tens. destruct b; simpl; lia. Qed.

Lemma tens_perm (l1 l2 : list bool) : l1 ≡ₚ l2 -> tens l1 = tens l2.
Proof.
  induction 1 as [| b l1 l2 _ IH | a b l | l1 l2 l3 _ IH1 _ IH2].
  - reflexivity.
  - rewrite !tens_cons, IH. reflexivity.
  - rewrite !tens_cons. lia.
  - congruence.
Qed.

Lemma base_score_empty : base_score ∅ = 0.
Proof. unfold base_score. rewrite map_to_list_empty. reflexivity. Qed.

Lemma base_score_insert (criteria : gmap string bool) (k : string) (v : bool) :
  criteria !! k = None ->
  base_score (<[k := v]> criteria) = (if v then 10 else 0) + base_score criteria.
Proof.
  intros Hk. change (base_score (<[k := v]> criteria))
    with (tens (map snd (map_to_list (<[k := v]> criteria)))).
  rewrite (tens_perm _ (v :: map snd (map_to_list criteria))).
  - apply tens_cons.
  - rewrite (map_to_list_insert criteria k v Hk). reflexivity.
Qed.

Lemma criteria_count_insert (criteria : gmap string bool) (k : string) (v : bool) :
  criteria !! k = None ->
  criteria_count (<[k := v]> criteria)
  = (if v then 1 else 0) + criteria_count criteria.
Proof.
  intros Hk. unfold criteria_count. destruct v.
  - rewrite map_filter_insert_True by reflexivity.
    rewrite map_size_insert_None by (apply map_lookup_filter_None; auto). lia.
  - rewrite map_filter_insert_False by (simpl; discriminate).
    rewrite delete_id by assumption. reflexivity.
Qed.

(** The base score is ten points per criterion met. *)
Lemma base_score_count (criteria : gmap string bool) :
  base_score criteria = 10 * criteria_count criteria.
Proof.
  induction criteria as [| k v criteria Hk IH] using map_ind.
  - rewrite base_score_empty. unfold criteria_count.
    rewrite map_filter_empty, map_size_empty. reflexivity.
  - rewrite base_score_insert, criteria_count_insert, IH by assumption.
    destruct v; lia.
Qed.

Lemma criteria_count_all_false (criteria : gmap string bool) :
  all_criteria false criteria -> criteria_count criteria = 0.
Proof.
  intros Hall. unfold criteria_count.
  rewrite (map_empty_filter_2 _ criteria).
  - rewrite map_size_empty. reflexivity.
  - intros k v Hkv Hv. simpl in Hv. apply Hall in Hkv. congruence.
Qed.

Lemma criteria_count_all_true (criteria : gmap string bool) :
  all_criteria true criteria ->
  criteria_count criteria = Z.of_nat (size criteria).
Proof.
  intros Hall. unfold criteria_count. f_equal. f_equal.
  apply map_filter_id. intros k v Hkv. apply Hall in Hkv. exact Hkv.
Qed.

Lemma float_le_0_not_ge (entropy : pyfloat) (n : Z) :
  0 < n -> float_le entropy 0 = true -> float_ge entropy n = false.
Proof.
  intros Hn Hle. destruct entropy as [| negative | q]; simpl in *.
  - reflexivity.
  - subst. reflexivity.
  - apply Qle_bool_iff in Hle. apply not_true_is_false. intros Hge.
    apply Qle_bool_iff in Hge.
    assert (Hq : (inject_Z n <= inject_Z 0)%Q) by (eapply Qle_trans; eauto).
    rewrite <- Zle_Qle in Hq. lia.
Qed.

Lemma tier_bonus_le_0 (entropy : pyfloat) :
  float_le entropy 0 = true -> tier_bonus entropy = 0.
Proof.
  intros H. unfold tier_bonus.
  rewrite !(float_le_0_not_ge entropy) by (assumption || lia). reflexivity.
Qed.

Lemma score_unfold (criteria : gmap string bool) (entropy : pyfloat) :
  calculate_strength_score criteria entropy
  = Z.min (10 * criteria_count criteria + tier_bonus entropy) 100.
Proof.
  unfold calculate_strength_score. rewrite base_score_count. reflexivity.
Qed.

(** C1: the strength score is [min(base + bonus, 100)] with base ten times
    the number of criteria met and the bonus given by the entropy tiers;
    all eight criteria true with entropy at least 70 scores 100; all
    criteria false scores 0 with entropy at most 0 and 5, 10, 15, 20 with
    entropy 45, 55, 65, 75. *)
Theorem calculate_strength_score_spec (criteria : gmap string bool)
    (entropy : pyfloat) :
  calculate_strength_score criteria entropy
    = Z.min (10 * criteria_count criteria + tier_bonus entropy) 100
  /\ (dom criteria = criteria_names -> all_criteria true criteria ->
      float_ge entropy 70 = true ->
      calculate_strength_score criteria entropy = 100)
  /\ (all_criteria false criteria -> float_le entropy 0 = true ->
      calculate_strength_score criteria entropy = 0)
  /\ (all_criteria false criteria ->
      calculate_strength_score criteria (Ffin 45) = 5
      /\ calculate_strength_score criteria (Ffin 55) = 10
      /\ calculate_strength_score criteria (Ffin 65) = 15
      /\ calculate_strength_score criteria (Ffin 75) = 20).
Proof.
  split; [apply score_unfold |]. split; [| split].
  - intros Hdom Htrue Hge. rewrite score_unfold.
    rewrite (criteria_count_all_true _ Htrue).
    rewrite <- size_dom, Hdom.
    unfold tier_bonus. rewrite Hge. reflexivity.
  - intros Hfalse Hle. rewrite score_unfold.
    rewrite (criteria_count_all_false _ Hfalse), (tier_bonus_le_0 _ Hle).
    reflexivity.
  - intros Hfalse. rewrite !score_unfold.
    rewrite (criteria_count_all_false _ Hfalse). repeat split; reflexivity.
Qed.

Lemma uniform_criteria_all (b : bool) : all_criteria b (uniform_criteria b).
Proof.
  intros k v Hkv. apply lookup_gset_to_gmap_Some in Hkv. symmetry. apply Hkv.
Qed.

Lemma calculate_strength_score_spec_witness :
  calculate_strength_score (uniform_criteria true) (Ffin 80) = 100
  /\ calculate_strength_score (uniform_criteria false) (Finf true) = 0
  /\ calculate_strength_score (uniform_criteria false) (Ffin 45) = 5.
Proof.
  destruct (calculate_strength_score_spec (uniform_criteria true) (Ffin 80))
    as (_ & H100 & _).
  destruct (calculate_strength_score_spec (uniform_criteria false) (Finf true))
    as (_ & _ & H0 & Htiers).
  split; [| split].
  - apply H100; [apply dom_gset_to_gmap | apply uniform_criteria_all | reflexivity].
  - apply H0; [apply uniform_criteria_all | reflexivity].
  - apply Htiers, uniform_criteria_all.
Defined.

(** C2: the rating is weak below 40, moderate from 40 and below 70,
    strong from 70 and below 90, very_strong from 90; 39 is weak, 40 and
    69 are moderate, 70 and 89 are strong, 90 is very_strong. *)
Theorem determine_rating_spec (score : Z) :
  (score < 40 -> _determine_rating score = "weak")
  /\ (40 <= score < 70 -> _determine_rating score = "moderate")
  /\ (70 <= score < 90 -> _determine_rating score = "strong")
  /\ (90 <= score -> _determine_rating score = "very_strong")
  /\ _determine_rating 39 = "weak"
  /\ _determine_rating 40 = "moderate"
  /\ _determine_rating 69 = "moderate"
  /\ _determine_rating 70 = "strong"
  /\ _determine_rating 89 = "strong"
  /\ _determine_rating 90 = "very_strong".
Proof.
  unfold _determine_rating.
  repeat split; try reflexivity; intros H;
    repeat match goal with
           | |- context [?a <? ?b] => destruct (Z.ltb_spec a b); try lia
           end; reflexivity.
Qed.

Lemma determine_rating_spec_witness :
  _determine_rating 0 = "weak"
  /\ _determine_rating 55 = "moderate"
  /\ _determine_rating 80 = "strong"
  /\ _determine_rating 100 = "very_strong".
Proof.
  destruct (determine_rating_spec 0) as (Hweak & _).
  destruct (determine_rating_spec 55) as (_ & Hmoderate & _).
  destruct (determine_rating_spec 80) as (_ & _ & Hstrong & _).
  destruct (determine_rating_spec 100) as (_ & _ & _ & Hvery & _).
  split; [| split; [| split]].
  - apply Hweak. lia.
  - apply Hmoderate. lia.
  - apply Hstrong. lia.
  - apply Hvery. lia.
Defined.

End ScoreFacts.

(** ** Pool size and entropy *)

Module EntropyFacts.
Import Entropy Spec.

Lemma in_lowercase (c : ascii) : char_in c ascii_lowercase = lowercase_letter c.
Proof. destruct c as [[] [] [] [] [] [] [] []]; reflexivity. Qed.

Lemma in_uppercase (c : ascii) : char_in c ascii_uppercase = uppercase_letter c.
Proof. destruct c as [[] [] [] [] [] [] [] []]; reflexivity. Qed.

Lemma in_digits (c : ascii) : char_in c digits = digit c.
Proof. destruct c as [[] [] [] [] [] [] [] []]; reflexivity. Qed.

Lemma in_punctuation (c : ascii) : char_in c punctuation = ascii_punctuation c.
Proof. destruct c as [[] [] [] [] [] [] [] []]; reflexivity. Qed.

Lemma existsb_ext_all {A} (f g : A -> bool) (l : list A) :
  (forall x, f x = g x) -> existsb f l = existsb g l.
Proof. intros Hfg. induction l as [| x l IH]; simpl; [| rewrite Hfg, IH]; reflexivity. Qed.

Lemma any_in_lowercase (password : string) :
  any_in ascii_lowercase password = present lowercase_letter password.
Proof. apply existsb_ext_all, in_lowercase. Qed.

Lemma any_in_uppercase (password : string) :
  any_in ascii_uppercase password = present uppercase_letter password.
Proof. apply existsb_ext_all, in_uppercase. Qed.

Lemma any_in_digits (password : string) :
  any_in digits password = present digit password.
Proof. apply existsb_ext_all, in_digits. Qed.

Lemma any_in_punctuation (password : string) :
  any_in punctuation password = present ascii_punctuation password.
Proof. apply existsb_ext_all, in_punctuation. Qed.

Lemma pool_size_class_sum (password : string) :
  get_character_pool_size password = class_sum password.
Proof.
  unfold get_character_pool_size, class_sum.
  destruct password as [| c rest]; [reflexivity |].
  cbv [is_empty].
  rewrite any_in_lowercase, any_in_uppercase, any_in_digits, any_in_punctuation.
  repeat match goal with |- context [present ?cls ?p] => destruct (present cls p) end;
    reflexivity.
Qed.

Lemma class_sum_nonneg (password : string) : 0 <= class_sum password.
Proof.
  unfold class_sum.
  repeat match goal with |- context [present ?cls ?p] => destruct (present cls p) end;
    lia.
Qed.

(** C3: the pool size is the sum of the sizes of the classes present in the
    password (26 lowercase, 26 uppercase, 10 digits, 32 ASCII punctuation),
    and the entropy function returns (log2(pool) x length, pool), or
    (0.0, 0) for the empty password or an empty pool. *)
Theorem pool_size_and_entropy_spec (log2 : Z -> pyfloat)
    (fmul : pyfloat -> pyfloat -> pyfloat) (password : string) :
  get_character_pool_size password = class_sum password
  /\ calculate_entropy log2 fmul password
     = if is_empty password || (class_sum password =? 0) then (zero, 0)
       else (fmul (log2 (class_sum password)) (float_of_int (len password)),
             class_sum password).
Proof.
  split; [apply pool_size_class_sum |].
  unfold calculate_entropy. rewrite pool_size_class_sum.
  destruct (is_empty password); [reflexivity |].
  destruct (class_sum password =? 0); reflexivity.
Qed.

Example pool_size_password : get_character_pool_size "password" = 26.
Proof. reflexivity. Qed.

Example pool_size_all_classes : get_character_pool_size "Password123!" = 94.
Proof. reflexivity. Qed.

Example pool_size_one_digit :
  get_character_pool_size "a1" = get_character_pool_size "a1234567890".
Proof. reflexivity. Qed.

End EntropyFacts.

(** ** Sequential runs *)

Module PatternFacts.
Import Patterns Spec.

Lemma elem_of_range (n i : Z) : i ∈ range n <-> 0 <= i < n.
Proof.
  unfold range. rewrite list_elem_of_fmap. split.
  - intros (k & -> & Hk). apply elem_of_seq in Hk. lia.
  - intros Hi. exists (Z.to_nat i). split; [lia |]. apply elem_of_seq. lia.
Qed.

(** The outer loop answers true exactly when one of its windows is a run. *)
Lemma scan_windows_true (cs : list ascii) (min_length : Z) (starts : list Z) :
  scan_windows cs min_length starts = true
  <-> exists i, i ∈ starts
      /\ (all_steps 1 (slice cs i (i + min_length)) = true
          \/ all_steps (-1) (slice cs i (i + min_length)) = true).
Proof.
  induction starts as [| i rest IH]; simpl.
  - split; [discriminate |]. intros (i & Hi & _). inversion Hi.
  - destruct (all_steps 1 (slice cs i (i + min_length))) eqn:Hup.
    { split; [| reflexivity]. intros _. exists i. split; [left | left; exact Hup]. }
    destruct (all_steps (-1) (slice cs i (i + min_length))) eqn:Hdown.
    { split; [| reflexivity]. intros _. exists i. split; [left | right; exact Hdown]. }
    rewrite IH. split.
    + intros (j & Hj & Hrun). exists j. split; [right; exact Hj | exact Hrun].
    + intros (j & Hj & Hrun). exists j. split; [| exact Hrun].
      apply elem_of_cons in Hj as [-> | Hj]; [| exact Hj].
      destruct Hrun; congruence.
Qed.

(** A window of three that fits is the three characters from its start. *)
Lemma slice_three (cs : list ascii) (i : nat) :
  (i + 3 <= length cs)%nat ->
  slice cs (Z.of_nat i) (Z.of_nat i + 3) = take 3 (drop i cs).
Proof.
  intros Hfit. unfold slice, slice_bound.
  destruct (Z.ltb_spec (Z.of_nat i) 0); [lia |].
  destruct (Z.ltb_spec (Z.of_nat i + 3) 0); [lia |].
  rewrite !Z.min_l by lia.
  replace (Z.to_nat (Z.of_nat i + 3 - Z.of_nat i)) with 3%nat by lia.
  rewrite Nat2Z.id. reflexivity.
Qed.

Lemma window_lookups (cs : list ascii) (i : nat) (a b c : ascii) :
  cs !! i = Some a -> cs !! (i + 1)%nat = Some b -> cs !! (i + 2)%nat = Some c ->
  take 3 (drop i cs) = [a; b; c].
Proof.
  intros Ha Hb Hc.
  rewrite <- (Nat.add_0_r i) in Ha.
  rewrite <- lookup_drop in Ha, Hb, Hc.
  destruct (drop i cs) as [| a' [| b' [| c' rest]]]; simpl in *;
    rewrite ?take_0; congruence.
Qed.

Lemma lookups_of_window (cs : list ascii) (i : nat) :
  (i + 3 <= length cs)%nat ->
  exists a b c, cs !! i = Some a /\ cs !! (i + 1)%nat = Some b
                /\ cs !! (i + 2)%nat = Some c.
Proof.
  intros Hfit.
  destruct (lookup_lt_is_Some_2 cs i) as [a Ha]; [lia |].
  destruct (lookup_lt_is_Some_2 cs (i + 1)) as [b Hb]; [lia |].
  destruct (lookup_lt_is_Some_2 cs (i + 2)) as [c Hc]; [lia |].
  eauto 6.
Qed.

Lemma all_steps_three (step : Z) (a b c : ascii) :
  all_steps step [a; b; c] = true
  <-> ord b = ord a + step /\ ord c = ord b + step.
Proof.
  simpl. destruct (Z.eqb_spec (ord b) (ord a + step));
    destruct (Z.eqb_spec (ord c) (ord b + step)); intuition congruence.
Qed.

Lemma window_run (step : Z) (password : string) (i : nat) :
  (i + 3 <= length (chars password))%nat ->
  all_steps step (slice (chars password) (Z.of_nat i) (Z.of_nat i + 3)) = true
  <-> run_at step password i.
Proof.
  intros Hfit. rewrite slice_three by exact Hfit.
  destruct (lookups_of_window _ _ Hfit) as (a & b & c & Ha & Hb & Hc).
  rewrite (window_lookups _ _ _ _ _ Ha Hb Hc), all_steps_three.
  unfold run_at. split.
  - intros [? ?]. exists a, b, c. auto.
  - intros (a' & b' & c' & Ha' & Hb' & Hc' & ? & ?).
    rewrite Ha in Ha'; rewrite Hb in Hb'; rewrite Hc in Hc'.
    injection Ha' as <-; injection Hb' as <-; injection Hc' as <-. auto.
Qed.

Lemma run_at_fits (step : Z) (password : string) (i : nat) :
  run_at step password i -> (i + 3 <= length (chars password))%nat.
Proof.
  intros (a & b & c & _ & _ & Hc & _). apply lookup_lt_Some in Hc. lia.
Qed.

Lemma len_chars (password : string) :
  len password = Z.of_nat (length (chars password)).
Proof.
  unfold len, chars. f_equal.
  induction password as [| c rest IH]; simpl; [| rewrite IH]; reflexivity.
Qed.

(** C7: with the default minimum run of 3, has_sequential_chars is true
    exactly when three consecutive characters go up by one code point each
    or go down by one code point each, whatever the characters are; it is
    true on abc and cba and false on a1b2c3.  This holds for passwords of
    every length, those shorter than 3 having no window. *)
Theorem has_sequential_chars_spec (password : string) :
  (has_sequential_chars_default password = true
   <-> exists i : nat, run_at 1 password i \/ run_at (-1) password i)
  /\ has_sequential_chars_default "abc" = true
  /\ has_sequential_chars_default "cba" = true
  /\ has_sequential_chars_default "a1b2c3" = false.
Proof.
  split; [| repeat split; reflexivity].
  unfold has_sequential_chars_default, has_sequential_chars.
  destruct (is_empty password || (len password <? 3)) eqn:Hshort.
  - split; [discriminate |]. intros (i & Hrun).
    assert (Hfit : (i + 3 <= length (chars password))%nat)
      by (destruct Hrun as [H | H]; exact (run_at_fits _ _ _ H)).
    apply orb_true_iff in Hshort as [Hempty | Hlt].
    + destruct password; [simpl in Hfit; lia | discriminate].
    + apply Z.ltb_lt in Hlt. rewrite len_chars in Hlt. lia.
  - apply orb_false_iff in Hshort as [_ Hlen]. apply Z.ltb_ge in Hlen.
    rewrite len_chars in Hlen |- *. rewrite scan_windows_true. split.
    + intros (i & Hi & Hrun). apply elem_of_range in Hi.
      exists (Z.to_nat i).
      assert (Hfit : (Z.to_nat i + 3 <= length (chars password))%nat) by lia.
      rewrite <- !(window_run _ _ _ Hfit), Z2Nat.id by lia. exact Hrun.
    + intros (i & Hrun).
      assert (Hfit : (i + 3 <= length (chars password))%nat)
        by (destruct Hrun as [H | H]; exact (run_at_fits _ _ _ H)).
      exists (Z.of_nat i). split; [apply elem_of_range; lia |].
      rewrite !(window_run _ _ _ Hfit). exact Hrun.
Qed.

(** The rule is the bare code-point distance: a digit followed by
    punctuation one code point higher is a run too. *)
Example sequential_across_classes : has_sequential_chars_default "89:" = true.
Proof. reflexivity. Qed.

End PatternFacts.

(** ** The dictionary check *)

Module WordlistFacts.
Import Wordlist Spec.

Lemma append_cons (c : ascii) (a b : string) :
  String c a ++ b = String c (a ++ b).
Proof. reflexivity. Qed.

Lemma append_nil (b : string) : "" ++ b = b.
Proof. reflexivity. Qed.

Lemma prefix_app (a b : string) :
  String.prefix a b = true <-> exists after, b = a ++ after.
Proof.
  revert b. induction a as [| c a IH]; intros b.
  - split; [intros _; exists b; reflexivity |]. intros _. destruct b; reflexivity.
  - destruct b as [| d b]; simpl.
    + split; [discriminate | intros (after & H); discriminate].
    + destruct (ascii_dec c d) as [-> | Hne].
      * rewrite IH. split; intros (after & H); exists after;
          rewrite append_cons in *; congruence.
      * split; [discriminate |]. intros (after & H).
        rewrite append_cons in H. congruence.
Qed.

Lemma contains_substring (sub s : string) :
  contains sub s = true <-> substring sub s.
Proof.
  unfold substring. induction s as [| c s IH]; cbn [contains].
  - rewrite orb_false_r, prefix_app. split.
    + intros (after & H). exists "", after. exact H.
    + intros (before & after & H). destruct before; [eauto | discriminate].
  - rewrite orb_true_iff, prefix_app, IH. split.
    + intros [(after & H) | (before & after & H)].
      * exists "", after. exact H.
      * exists (String c before), after. rewrite append_cons. congruence.
    + intros (before & after & H). destruct before as [| d before].
      * left. exists after. exact H.
      * right. exists before, after. rewrite append_cons in H. congruence.
Qed.

Lemma any_word_inside_true (wordlist : gset string) (lowered : string) :
  any_word_inside wordlist lowered = true
  <-> exists word, word ∈ wordlist /\ 4 <= len word /\ substring word lowered.
Proof.
  unfold any_word_inside. rewrite existsb_exists. split.
  - intros (word & Hin & Hok). apply andb_true_iff in Hok as [Hlen Hsub].
    exists word. rewrite <- contains_substring.
    rewrite <- list_elem_of_In, elem_of_elements in Hin.
    split; [exact Hin | split; [lia | exact Hsub]].
  - intros (word & Hin & Hlen & Hsub). exists word.
    rewrite <- list_elem_of_In, elem_of_elements.
    split; [exact Hin |]. apply andb_true_iff.
    split; [lia | apply contains_substring, Hsub].
Qed.

Section Builtins.
Variable lower strip : string -> string.
Variable data_path : string.

Lemma read_words_nonempty (lines : list string) :
  "" ∉ read_words lower strip lines.
Proof.
  unfold read_words.
  assert (Hgen : forall acc : gset string, "" ∉ acc ->
    "" ∉ foldl (fun wordlist line =>
                  let word := lower (strip line) in
                  if is_empty word then wordlist else wordlist ∪ {[ word ]})
               acc lines).
  { induction lines as [| line lines IH]; intros acc Hacc; simpl; [exact Hacc |].
    apply IH. destruct (lower (strip line)) eqn:Hword; simpl; [exact Hacc |].
    rewrite elem_of_union, elem_of_singleton.
    intros [Hin | Heq]; [contradiction | discriminate]. }
  apply Hgen, not_elem_of_empty.
Qed.

Lemma load_wordlist_nonempty (file : option (list string))
    (cache cache' : option (gset string)) (wordlist : gset string) :
  cache_state lower strip cache ->
  load_wordlist lower strip data_path file cache = (Ok wordlist, cache') ->
  ("" ∉ wordlist) /\ cache' = Some wordlist.
Proof.
  unfold load_wordlist. intros [-> | (lines & ->)].
  - destruct file as [lines |]; [| discriminate].
    intros [= <- <-]. split; [apply read_words_nonempty | reflexivity].
  - intros [= <- <-]. split; [apply read_words_nonempty | reflexivity].
Qed.

(** The cache stays in a state that [load_wordlist] produces. *)
Lemma contains_dictionary_word_cache (password : string)
    (file : option (list string)) (cache : option (gset string)) :
  cache_state lower strip cache ->
  cache_state lower strip
    (contains_dictionary_word lower strip data_path password file cache).2.
Proof.
  intros Hcache. unfold contains_dictionary_word.
  destruct (is_empty password); [exact Hcache |].
  unfold load_wordlist. destruct cache as [wordlist |].
  - repeat case_match; simplify_eq/=; exact Hcache.
  - destruct file as [lines |]; simpl; [| left; reflexivity].
    repeat case_match; simplify_eq/=; right; eauto.
Qed.

(** C8: the dictionary check lowercases the password and is true exactly
    when the lowercased password is a wordlist entry or contains an entry
    of at least four characters; when the data file is missing at the
    time the wordlist has to be loaded, the check returns false and does
    not raise. *)
Theorem contains_dictionary_word_spec (password : string)
    (file : option (list string)) (cache : option (gset string)) :
  lower "" = "" ->
  cache_state lower strip cache ->
  (forall wordlist cache',
     load_wordlist lower strip data_path file cache = (Ok wordlist, cache') ->
     exists hit : bool,
       contains_dictionary_word lower strip data_path password file cache
         = (Ok hit, if is_empty password then cache else cache')
       /\ (hit = true <-> dictionary_hit wordlist (lower password)))
  /\ (cache = None -> file = None ->
      contains_dictionary_word lower strip data_path password file cache
        = (Ok false, None)).
Proof.
  intros Hlower Hcache. split.
  - intros wordlist cache' Hload.
    destruct (load_wordlist_nonempty _ _ _ _ Hcache Hload) as [Hne _].
    unfold contains_dictionary_word. destruct password as [| c rest].
    + exists false. split; [reflexivity |]. rewrite Hlower.
      split; [discriminate |]. intros [Hin | (word & Hin & Hlen & Hsub)].
      * contradiction.
      * destruct Hsub as (before & after & Heq).
        destruct before; [| discriminate]. destruct word; [| discriminate].
        contradiction.
    + cbv [is_empty]. rewrite Hload. unfold dictionary_hit.
      destruct (bool_decide_reflect (lower (String c rest) ∈ wordlist)) as [Hin | Hnin].
      { exists true. split; [reflexivity | tauto]. }
      pose proof (any_word_inside_true wordlist (lower (String c rest))) as Hany.
      destruct (any_word_inside wordlist (lower (String c rest))).
      * exists true. split; [reflexivity | tauto].
      * exists false. split; [reflexivity |].
        split; [discriminate |].
        intros [? | Hword]; [contradiction |]. apply Hany in Hword. discriminate.
  - intros -> ->. unfold contains_dictionary_word, load_wordlist.
    destruct (is_empty password); reflexivity.
Qed.

End Builtins.

(** [str.lower] on ASCII letters, for the examples. *)
Definition lower_ascii (s : string) : string :=
  join (map (fun c => if uppercase_letter c
                      then ascii_of_N (Z.to_N (ord c + 32)) else c)
            (chars s)).

(** [str.strip] for lines that end in a line feed, for the examples. *)
Fixpoint strip_newline (s : string) : string :=
  match s with
  | EmptyString => EmptyString
  | String c rest =>
      if (ord c =? 10) && is_empty (strip_newline rest) then EmptyString
      else String c (strip_newline rest)
  end.

Definition sample_file : list string :=
  [ String "p" (String "a" (String "s" (String "s" (String "010" ""))));
    String "010" ""; "Dragon"; "abc" ].

Lemma contains_dictionary_word_spec_witness :
  (exists hit : bool,
     contains_dictionary_word lower_ascii strip_newline "data" "MyDRAGON1"
       (Some sample_file) None
       = (Ok hit, Some (read_words lower_ascii strip_newline sample_file))
     /\ (hit = true
         <-> dictionary_hit (read_words lower_ascii strip_newline sample_file)
                            (lower_ascii "MyDRAGON1")))
  /\ contains_dictionary_word lower_ascii strip_newline "data" "MyDRAGON1"
       None None = (Ok false, None).
Proof.
  assert (Hlower : lower_ascii "" = "") by reflexivity.
  assert (Hcache : cache_state lower_ascii strip_newline None) by (left; reflexivity).
  split.
  - apply (contains_dictionary_word_spec lower_ascii strip_newline "data"
             "MyDRAGON1" (Some sample_file) None Hlower Hcache).
    reflexivity.
  - apply (contains_dictionary_word_spec lower_ascii strip_newline "data"
             "MyDRAGON1" None None Hlower Hcache); reflexivity.
Defined.

Example dictionary_examples :
  (contains_dictionary_word lower_ascii strip_newline "data" "MyDRAGON1"
     (Some sample_file) None).1 = Ok true
  /\ (contains_dictionary_word lower_ascii strip_newline "data" "PASS"
       (Some sample_file) None).1 = Ok true
  /\ (contains_dictionary_word lower_ascii strip_newline "data" "xabcx"
       (Some sample_file) None).1 = Ok false
  /\ (contains_dictionary_word lower_ascii strip_newline "data" "ABC"
       (Some sample_file) None).1 = Ok true.
Proof. repeat split; vm_compute; reflexivity. Qed.

End WordlistFacts.

(** ** The breach client *)

Module BreachFacts.
Import Breach Spec.

Lemma chars_join (l : list ascii) : chars (join l) = l.
Proof. apply list_ascii_of_string_of_list_ascii. Qed.

Lemma join_chars (s : string) : join (chars s) = s.
Proof. apply string_of_list_ascii_of_string. Qed.

Lemma length_chars (s : string) : length (chars s) = String.length s.
Proof. induction s as [| c s IH]; simpl; [| rewrite IH]; reflexivity. Qed.

Lemma length_join (l : list ascii) : String.length (join l) = length l.
Proof. rewrite <- length_chars, chars_join. reflexivity. Qed.

Lemma hex_word_length (x : Z) : length (Sha1.hex_word x) = 8%nat.
Proof. reflexivity. Qed.

Lemma hexdigest_length (msg : list Z) : String.length (Sha1.hexdigest msg) = 40%nat.
Proof.
  unfold Sha1.hexdigest. destruct (Sha1.digest msg) as [[[[h0 h1] h2] h3] h4].
  rewrite length_join, !length_app, !hex_word_length. reflexivity.
Qed.

(** The digest always has 40 characters. *)
Lemma sha1_hash_length (password : string) :
  String.length (_sha1_hash password) = 40%nat.
Proof.
  unfold _sha1_hash, upper.
  rewrite length_join, length_map, length_chars. apply hexdigest_length.
Qed.

Lemma hex_digit_lower (n : Z) :
  Sha1.hex_digit n ∈ chars "0123456789abcdef".
Proof.
  unfold Sha1.hex_digit.
  assert (Hlt : (Z.to_nat (n mod 16) < 16)%nat)
    by (pose proof (Z.mod_pos_bound n 16); lia).
  apply list_elem_of_In, nth_In. exact Hlt.
Qed.

Lemma upper_hex_digit (c : ascii) :
  c ∈ chars "0123456789abcdef" -> upper_char c ∈ chars "0123456789ABCDEF".
Proof.
  intros Hc. cbv [chars list_ascii_of_string] in Hc.
  repeat (apply elem_of_cons in Hc as [-> | Hc];
          [vm_compute; repeat constructor |]).
  inversion Hc.
Qed.

(** The digest is written in uppercase hexadecimal. *)
Lemma sha1_hash_uppercase_hex (password : string) (c : ascii) :
  c ∈ chars (_sha1_hash password) -> c ∈ chars "0123456789ABCDEF".
Proof.
  unfold _sha1_hash, upper, Sha1.hexdigest.
  destruct (Sha1.digest _) as [[[[h0 h1] h2] h3] h4].
  rewrite !chars_join. intros Hc.
  apply list_elem_of_fmap in Hc as (d & -> & Hd). apply upper_hex_digit.
  repeat (apply elem_of_app in Hd as [Hd | Hd]);
    apply list_elem_of_fmap in Hd as (i & -> & _); apply hex_digit_lower.
Qed.

Lemma substring_take_drop (n m : nat) (s : string) :
  String.substring n m s = join (take m (drop n (chars s))).
Proof.
  revert n m. induction s as [| c s IH]; intros n m.
  - destruct n, m; reflexivity.
  - destruct n as [| n].
    + destruct m as [| m]; [reflexivity |]. simpl. rewrite IH. reflexivity.
    + simpl. apply IH.
Qed.

Lemma slice_take_drop {A} (l : list A) (i j : nat) :
  (i <= j <= length l)%nat ->
  slice l (Z.of_nat i) (Z.of_nat j) = take (j - i) (drop i l).
Proof.
  intros Hij. unfold slice, slice_bound.
  destruct (Z.ltb_spec (Z.of_nat i) 0); [lia |].
  destruct (Z.ltb_spec (Z.of_nat j) 0); [lia |].
  rewrite !Z.min_l by lia.
  replace (Z.to_nat (Z.of_nat j - Z.of_nat i)) with (j - i)%nat by lia.
  rewrite Nat2Z.id. reflexivity.
Qed.

(** The two slices of the client are the prefix and the suffix of the
    specification. *)
Lemma hash_slices (password : string) :
  join (slice (chars (_sha1_hash password)) 0 5) = sent_prefix password
  /\ join (slice (chars (_sha1_hash password)) 5 (len (_sha1_hash password)))
     = local_suffix password.
Proof.
  pose proof (sha1_hash_length password) as Hlen.
  unfold sent_prefix, local_suffix, len. rewrite !substring_take_drop, Hlen.
  split.
  - rewrite (slice_take_drop _ 0 5) by (rewrite length_chars; lia). reflexivity.
  - rewrite (slice_take_drop _ 5 40) by (rewrite length_chars; lia). reflexivity.
Qed.

Lemma join_app (a b : list ascii) : join (a ++ b)%list = join a ++ join b.
Proof. induction a as [| c a IH]; simpl; [| rewrite IH]; reflexivity. Qed.

Lemma hash_split (password : string) :
  _sha1_hash password = sent_prefix password ++ local_suffix password
  /\ String.length (sent_prefix password) = 5%nat
  /\ String.length (local_suffix password) = 35%nat.
Proof.
  pose proof (sha1_hash_length password) as Hlen.
  unfold sent_prefix, local_suffix. rewrite !substring_take_drop.
  rewrite !length_join, length_take, !length_drop, !length_take, length_drop.
  rewrite length_chars, Hlen. split; [| split; reflexivity].
  rewrite <- join_app, drop_0.
  rewrite (take_ge (drop 5 _)) by (rewrite length_drop, length_chars; lia).
  rewrite take_drop. symmetry. apply join_chars.
Qed.

Lemma find_suffix_listed (suffixes : list (string * Z)) (suffix : string) :
  listed suffixes suffix ->
  exists count, find_suffix suffixes suffix = (true, count)
                /\ first_listed suffixes suffix count.
Proof.
  induction suffixes as [| [returned count] rest IH]; intros (n & Hin).
  - inversion Hin.
  - simpl. destruct (String.eqb_spec returned suffix) as [-> | Hne].
    + exists count. split; [reflexivity |]. exists [], rest.
      split; [reflexivity |]. intros (m & Hm). inversion Hm.
    + apply elem_of_cons in Hin as [Heq | Hin]; [congruence |].
      destruct IH as (m & Hfind & before & after & -> & Hbefore); [exists n; exact Hin |].
      exists m. split; [exact Hfind |]. exists ((returned, count) :: before), after.
      split; [reflexivity |]. intros (k & Hk).
      apply elem_of_cons in Hk as [Heq | Hk]; [congruence |].
      apply Hbefore. exists k. exact Hk.
Qed.

Lemma find_suffix_not_listed (suffixes : list (string * Z)) (suffix : string) :
  ~ listed suffixes suffix -> find_suffix suffixes suffix = (false, 0).
Proof.
  induction suffixes as [| [returned count] rest IH]; intros Hnot; [reflexivity |].
  simpl. destruct (String.eqb_spec returned suffix) as [-> | Hne].
  - exfalso. apply Hnot. exists count. left.
  - apply IH. intros (n & Hn). apply Hnot. exists n. right. exact Hn.
Qed.

Lemma attempts_step (_api_request : api) (hash_prefix hash_suffix : string)
    (timeout max_retries : Z) (remaining : nat) (attempt : Z) :
  attempts _api_request hash_prefix hash_suffix timeout max_retries
           (S remaining) attempt
  = match _api_request attempt hash_prefix timeout with
    | Ok suffixes =>
        (Some (find_suffix suffixes hash_suffix), [Request hash_prefix timeout])
    | Raise e =>
        if attempt <? max_retries - 1 then
          let '(r, evs) :=
            attempts _api_request hash_prefix hash_suffix timeout max_retries
                     remaining (attempt + 1) in
          (r, Request hash_prefix timeout :: Sleep (2 ^ attempt) :: evs)
        else
          (Some (false, 0),
           [Request hash_prefix timeout; PrintFailed max_retries e; PrintContinue])
    end.
Proof. reflexivity. Qed.

(** The loop when attempts [attempt .. attempt + k - 1] raise and attempt
    [attempt + k], still below [max_retries], is answered. *)
Lemma attempts_answered (_api_request : api) (hash_prefix hash_suffix : string)
    (timeout max_retries : Z) (errors : Z -> exn) (suffixes : list (string * Z))
    (k : nat) :
  forall (remaining : nat) (attempt : Z),
    (k < remaining)%nat ->
    attempt + Z.of_nat k < max_retries ->
    (forall j, attempt <= j < attempt + Z.of_nat k ->
               _api_request j hash_prefix timeout = Raise (errors j)) ->
    _api_request (attempt + Z.of_nat k) hash_prefix timeout = Ok suffixes ->
    attempts _api_request hash_prefix hash_suffix timeout max_retries remaining attempt
    = (Some (find_suffix suffixes hash_suffix),
       (retried hash_prefix timeout attempt k ++ [Request hash_prefix timeout])%list).
Proof.
  induction k as [| k IH]; intros remaining attempt Hrem Hmax Hfail Hok.
  - destruct remaining as [| remaining]; [lia |]. rewrite attempts_step.
    rewrite Z.add_0_r in Hok. rewrite Hok. reflexivity.
  - destruct remaining as [| remaining]; [lia |]. rewrite attempts_step.
    rewrite (Hfail attempt) by lia.
    destruct (Z.ltb_spec attempt (max_retries - 1)); [| lia].
    rewrite (IH remaining (attempt + 1)); [reflexivity | lia | lia | |].
    + intros j Hj. apply Hfail. lia.
    + rewrite <- Hok. f_equal. lia.
Qed.

(** The loop when every attempt raises: the last one is not retried. *)
Lemma attempts_exhausted (_api_request : api) (hash_prefix hash_suffix : string)
    (timeout max_retries : Z) (errors : Z -> exn) (k : nat) :
  forall attempt : Z,
    attempt + Z.of_nat k = max_retries - 1 ->
    (forall j, attempt <= j < max_retries ->
               _api_request j hash_prefix timeout = Raise (errors j)) ->
    attempts _api_request hash_prefix hash_suffix timeout max_retries (S k) attempt
    = (Some (false, 0),
       (retried hash_prefix timeout attempt k
        ++ [Request hash_prefix timeout;
            PrintFailed max_retries (errors (max_retries - 1));
            PrintContinue])%list).
Proof.
  induction k as [| k IH]; intros attempt Hlast Hfail.
  - rewrite attempts_step, (Hfail attempt) by lia.
    destruct (Z.ltb_spec attempt (max_retries - 1)); [lia |].
    replace (max_retries - 1) with attempt by lia. reflexivity.
  - rewrite attempts_step, (Hfail attempt) by lia.
    destruct (Z.ltb_spec attempt (max_retries - 1)); [| lia].
    rewrite (IH (attempt + 1)); [reflexivity | lia |].
    intros j Hj. apply Hfail. lia.
Qed.

Lemma requests_retried (hash_prefix : string) (timeout attempt : Z) (n : nat) :
  requests (retried hash_prefix timeout attempt n) = repeat hash_prefix n.
Proof.
  revert attempt. induction n as [| n IH]; intros attempt; [reflexivity |].
  simpl. unfold requests in *. simpl. rewrite IH. reflexivity.
Qed.

Lemma sleeps_retried (hash_prefix : string) (timeout attempt : Z) (n : nat) :
  sleeps (retried hash_prefix timeout attempt n)
  = map (fun i => 2 ^ (attempt + Z.of_nat i)) (seq 0 n).
Proof.
  revert attempt. induction n as [| n IH]; intros attempt; [reflexivity |].
  simpl. unfold sleeps in *. simpl. rewrite IH, Z.add_0_r. f_equal.
  rewrite <- seq_shift, map_map. apply map_ext. intros i. f_equal. lia.
Qed.

Lemma is_empty_false (password : string) :
  password <> "" -> is_empty password = false.
Proof. destruct password; [congruence | reflexivity]. Qed.

Lemma check_breach_unfold (_api_request : api) (password : string)
    (timeout max_retries : Z) :
  password <> "" ->
  check_breach _api_request password timeout max_retries
  = attempts _api_request (sent_prefix password) (local_suffix password)
             timeout max_retries (Z.to_nat max_retries) 0.
Proof.
  intros Hne. unfold check_breach. rewrite (is_empty_false _ Hne).
  destruct (hash_slices password) as [-> ->]. reflexivity.
Qed.

(** C4 (amended): for every non-empty password, check_breach hashes it
    with SHA-1 in uppercase hexadecimal, splits the 40 characters into a
    prefix of 5 and a suffix of 35, sends only the prefix, and, from the
    list of (suffix, count) pairs of the first attempt that is answered,
    returns (true, count) for the first pair whose suffix equals the local
    suffix exactly, and (false, 0) when there is no such pair; the hash of
    password is 5BAA61E4C9B93F3F0682250B6CF8331B7EE68FD8 and its prefix
    5BAA6. *)
Theorem check_breach_spec (_api_request : api) (password : string)
    (timeout max_retries : Z) (errors : Z -> exn)
    (suffixes : list (string * Z)) (k : nat) :
  password <> "" ->
  Z.of_nat k < max_retries ->
  (forall j, 0 <= j < Z.of_nat k ->
             _api_request j (sent_prefix password) timeout = Raise (errors j)) ->
  _api_request (Z.of_nat k) (sent_prefix password) timeout = Ok suffixes ->
  _sha1_hash password = sent_prefix password ++ local_suffix password
  /\ String.length (sent_prefix password) = 5%nat
  /\ String.length (local_suffix password) = 35%nat
  /\ (forall c, c ∈ chars (_sha1_hash password) -> c ∈ chars "0123456789ABCDEF")
  /\ requests (check_breach _api_request password timeout max_retries).2
     = repeat (sent_prefix password) (S k)
  /\ (listed suffixes (local_suffix password) ->
      exists count,
        (check_breach _api_request password timeout max_retries).1
          = Some (true, count)
        /\ first_listed suffixes (local_suffix password) count)
  /\ (~ listed suffixes (local_suffix password) ->
      (check_breach _api_request password timeout max_retries).1
        = Some (false, 0))
  /\ _sha1_hash "password" = "5BAA61E4C9B93F3F0682250B6CF8331B7EE68FD8"
  /\ sent_prefix "password" = "5BAA6".
Proof.
  intros Hne Hk Hfail Hok.
  destruct (hash_split password) as (Hsplit & Hprefix & Hsuffix).
  rewrite (check_breach_unfold _ _ _ _ Hne).
  rewrite (attempts_answered _ _ _ _ _ errors suffixes k);
    [| lia | lia | exact Hfail | exact Hok].
  cbn [fst snd].
  repeat split; try assumption.
  - apply sha1_hash_uppercase_hex.
  - unfold requests. rewrite omap_app. fold (requests (retried (sent_prefix password) timeout 0 k)).
    rewrite requests_retried. simpl.
    change (repeat (sent_prefix password) k ++ [sent_prefix password])%list
      with (repeat (sent_prefix password) k ++ repeat (sent_prefix password) 1)%list.
    rewrite <- repeat_app. replace (k + 1)%nat with (S k) by lia. reflexivity.
  - intros Hlisted.
    destruct (find_suffix_listed _ _ Hlisted) as (count & Hfind & Hfirst).
    exists count. rewrite Hfind. split; [reflexivity | exact Hfirst].
  - intros Hnot. rewrite (find_suffix_not_listed _ _ Hnot). reflexivity.
Qed.

(** The answers of the test suite: the breached suffix of password. *)
Definition sample_answer : list (string * Z) :=
  [ ("1E4C9B93F3F0682250B6CF8331B7EE68FD8", 3861493); ("ABCDEF123456", 100) ].

(** A service that times out once and then answers. *)
Definition flaky_api : api :=
  fun attempt _ _ =>
    if attempt =? 0 then Raise (RequestException "Request timed out.")
    else Ok sample_answer.

Lemma check_breach_spec_witness :
  (exists count,
     (check_breach flaky_api "password" 10 3).1 = Some (true, count)
     /\ first_listed sample_answer (local_suffix "password") count)
  /\ requests (check_breach flaky_api "password" 10 3).2
     = repeat (sent_prefix "password") 2.
Proof.
  assert (Hne : "password" <> "") by discriminate.
  assert (Hlisted : listed sample_answer (local_suffix "password")).
  { exists 3861493. vm_compute. left. }
  destruct (check_breach_spec flaky_api "password" 10 3
              (fun _ => RequestException "Request timed out.") sample_answer 1 Hne)
    as (_ & _ & _ & _ & Hreq & Hfound & _).
  - lia.
  - intros j Hj. replace j with 0 by lia. reflexivity.
  - reflexivity.
  - split; [exact (Hfound Hlisted) | exact Hreq].
Defined.

Example check_breach_flaky :
  check_breach flaky_api "password" 10 3
  = (Some (true, 3861493),
     [Request "5BAA6" 10; Sleep 1; Request "5BAA6" 10]).
Proof. vm_compute. reflexivity. Qed.

(** The empty password is answered (false, 0) without a request, also
    when the service lists the suffix of its hash. *)
Lemma check_breach_empty_counterexample :
  listed [("3EE5E6B4B0D3255BFEF95601890AFD80709", 7)] (local_suffix "")
  /\ check_breach_default
       (fun _ _ _ => Ok [("3EE5E6B4B0D3255BFEF95601890AFD80709", 7)]) ""
     = (Some (false, 0), []).
Proof.
  split; [| reflexivity]. exists 7. vm_compute. left.
Qed.

(** The comparison is exact: the same suffix in lowercase is not a match. *)
Example check_breach_case_sensitive :
  check_breach_default
    (fun _ _ _ => Ok [("1e4c9b93f3f0682250b6cf8331b7ee68fd8", 100)]) "password"
  = (Some (false, 0), [Request "5BAA6" 10]).
Proof. vm_compute. reflexivity. Qed.

(** When every attempt raises and at least one attempt is allowed, there
    are [max_retries] requests with sleeps of 1, 2, 4, ... seconds between
    them, and the answer is (false, 0). *)
Lemma check_breach_exhausted (_api_request : api) (password : string)
    (timeout max_retries : Z) (errors : Z -> exn) :
  password <> "" ->
  1 <= max_retries ->
  (forall j, 0 <= j < max_retries ->
             _api_request j (sent_prefix password) timeout = Raise (errors j)) ->
  check_breach _api_request password timeout max_retries
  = (Some (false, 0),
     (retried (sent_prefix password) timeout 0 (Z.to_nat (max_retries - 1))
      ++ [Request (sent_prefix password) timeout;
          PrintFailed max_retries (errors (max_retries - 1));
          PrintContinue])%list).
Proof.
  intros Hne Hmax Hfail. rewrite (check_breach_unfold _ _ _ _ Hne).
  replace (Z.to_nat max_retries) with (S (Z.to_nat (max_retries - 1))) by lia.
  apply attempts_exhausted; [lia | exact Hfail].
Qed.

Lemma check_breach_exhausted_effects (_api_request : api) (password : string)
    (timeout max_retries : Z) (errors : Z -> exn) :
  password <> "" ->
  1 <= max_retries ->
  (forall j, 0 <= j < max_retries ->
             _api_request j (sent_prefix password) timeout = Raise (errors j)) ->
  (check_breach _api_request password timeout max_retries).1 = Some (false, 0)
  /\ requests (check_breach _api_request password timeout max_retries).2
     = repeat (sent_prefix password) (Z.to_nat max_retries)
  /\ sleeps (check_breach _api_request password timeout max_retries).2
     = map (fun i => 2 ^ Z.of_nat i) (seq 0 (Z.to_nat (max_retries - 1))).
Proof.
  intros Hne Hmax Hfail.
  rewrite (check_breach_exhausted _ _ _ _ errors Hne Hmax Hfail). cbn [fst snd].
  split; [reflexivity |]. unfold requests, sleeps. rewrite !omap_app.
  fold (requests (retried (sent_prefix password) timeout 0 (Z.to_nat (max_retries - 1)))).
  fold (sleeps (retried (sent_prefix password) timeout 0 (Z.to_nat (max_retries - 1)))).
  rewrite requests_retried, sleeps_retried. simpl. split.
  - change [sent_prefix password] with (repeat (sent_prefix password) 1).
    rewrite <- repeat_app. f_equal. lia.
  - rewrite app_nil_r. reflexivity.
Qed.

(** The empty password: (false, 0) and no event at all. *)
Lemma check_breach_empty (_api_request : api) (timeout max_retries : Z) :
  check_breach _api_request "" timeout max_retries = (Some (false, 0), []).
Proof. reflexivity. Qed.

(** With the default of three attempts that all fail: three requests,
    sleeps of 1 and 2 seconds, then (false, 0). *)
Example check_breach_three_failures :
  check_breach_default (fun _ _ _ => Raise (RequestException "Connection failed."))
                       "password"
  = (Some (false, 0),
     [ Request "5BAA6" 10; Sleep 1; Request "5BAA6" 10; Sleep 2;
       Request "5BAA6" 10;
       PrintFailed 3 (RequestException "Connection failed."); PrintContinue ]).
Proof. vm_compute. reflexivity. Qed.

(** C5: with max_retries = 0 the loop body never runs: check_breach makes
    no request and returns None, not the pair (false, 0). *)
Theorem check_breach_zero_retries :
  check_breach (fun _ _ _ => Raise (RequestException "Connection failed."))
               "password" 10 0
  = (None, []).
Proof. vm_compute. reflexivity. Qed.

End BreachFacts.

(** ** Float operations for the examples *)

From Stdlib Require DecimalString.
From Stdlib Require Qround Qabs.

Module FloatSamples.

(** The operations on rationals, exact where the platform rounds; the
    logarithm and the power take the integer part of the exponent. *)
Definition log2 (pool_size : Z) : pyfloat :=
  Ffin (inject_Z (Z.log2 pool_size)).

Definition fmul (x y : pyfloat) : pyfloat :=
  match x, y with
  | Ffin p, Ffin q => Ffin (Qred (p * q))
  | _, _ => Fnan
  end.

Definition exp2 (x : Q) : pyfloat := Ffin (inject_Z (2 ^ Qround.Qfloor x)).

Definition fdiv (x : pyfloat) (n : Z) : pyfloat :=
  match x with
  | Ffin p => Ffin (Qred (p / inject_Z n))
  | _ => x
  end.

Definition digits_of (n : Z) : string :=
  DecimalString.NilZero.string_of_uint (N.to_uint (Z.to_N n)).

(** [n] in at least [width] digits, with zeros in front. *)
Definition zero_padded (width : nat) (n : Z) : string :=
  let text := digits_of n in
  join (repeat "0"%char (width - String.length text)) ++ text.

(** The nearest integer, the even one of two that are equally near. *)
Definition round_half_even (q : Q) : Z :=
  let down := Qround.Qfloor q in
  match ((q - inject_Z down) ?= (1 # 2))%Q with
  | Lt => down
  | Gt => down + 1
  | Eq => if Z.even down then down else down + 1
  end.

(** [{x:.Nf}] for [N] of at least 1. *)
Definition fixed (places : nat) (x : pyfloat) : string :=
  match x with
  | Fnan => "nan"
  | Finf negative => if negative then "-inf" else "inf"
  | Ffin q =>
      let scale := 10 ^ Z.of_nat places in
      let n := round_half_even (Qabs.Qabs q * inject_Z scale) in
      (if Qle_bool 0 q then "" else "-")
      ++ digits_of (n / scale) ++ "." ++ zero_padded places (n mod scale)
  end.

End FloatSamples.

(** ** The analyzer's breach status *)

Module AnalyzerFacts.
Import Analyzer Spec.

Section Environment.
Variable lower strip : string -> string.
Variable data_path : string.
Variable log2 : Z -> pyfloat.
Variable fmul : pyfloat -> pyfloat -> pyfloat.
Variable exp2 : Q -> pyfloat.
Variable fdiv : pyfloat -> Z -> pyfloat.
Variable fixed : nat -> pyfloat -> string.
Variable check_breach : string -> result (option (bool * Z)).

(** The status that the analyzer derives from the breach client. *)
Definition status_of (password : string) (check_breach_status : bool)
  : breach_status :=
  if check_breach_status then
    match check_breach password with
    | Ok (Some (is_breached, breach_count)) =>
        {| checked := true; found := is_breached;
           occurrence_count := breach_count |}
    | Ok None => not_checked
    | Raise e => not_checked
    end
  else not_checked.

(** A record that analyze_password returns is made of the entropy, the
    criteria, the score and rating of these, and the status of the breach
    check; the criteria were computed and the crack times estimated without
    an exception. *)
Lemma analyze_password_ok (password : string) (check_breach_status : bool)
    (file : Wordlist.data_file) (cache : option (gset string))
    (analysis : PasswordAnalysis) (cache' : option (gset string)) :
  analyze_password lower strip data_path log2 fmul exp2 fdiv fixed check_breach
                   password check_breach_status file cache
  = (Ok analysis, cache') ->
  exists criteria crack_time,
    _check_criteria lower strip data_path password file cache
    = (Ok criteria, cache')
    /\ CrackTime.estimate_crack_time exp2 fdiv fixed
         (Entropy.calculate_entropy log2 fmul password).1 = Ok crack_time
    /\ analysis
       = {| strength_score :=
              calculate_strength_score criteria
                (Entropy.calculate_entropy log2 fmul password).1;
            strength_rating :=
              _determine_rating
                (calculate_strength_score criteria
                   (Entropy.calculate_entropy log2 fmul password).1);
            length := len password;
            entropy_bits := (Entropy.calculate_entropy log2 fmul password).1;
            character_pool_size :=
              (Entropy.calculate_entropy log2 fmul password).2;
            criteria_met := criteria;
            breach := status_of password check_breach_status;
            estimated_crack_time := crack_time |}.
Proof.
  unfold analyze_password.
  destruct (Entropy.calculate_entropy log2 fmul password) as [bits pool].
  destruct (_check_criteria lower strip data_path password file cache)
    as [[criteria | e] cache1]; [| discriminate].
  cbn [fst snd].
  destruct (CrackTime.estimate_crack_time exp2 fdiv fixed bits)
    as [crack_time | e] eqn:Htime; [| discriminate].
  intros [= <- <-]. exists criteria, crack_time.
  split; [reflexivity |]. split; reflexivity.
Qed.

(** analyze_password returns a record whenever the criteria are computed
    and the crack times estimated without an exception. *)
Lemma analyze_password_returns (password : string) (check_breach_status : bool)
    (file : Wordlist.data_file) (cache cache' : option (gset string))
    (criteria : gmap string bool) (crack_time : gmap string string) :
  _check_criteria lower strip data_path password file cache
  = (Ok criteria, cache') ->
  CrackTime.estimate_crack_time exp2 fdiv fixed
    (Entropy.calculate_entropy log2 fmul password).1 = Ok crack_time ->
  exists analysis,
    analyze_password lower strip data_path log2 fmul exp2 fdiv fixed check_breach
                     password check_breach_status file cache
    = (Ok analysis, cache').
Proof.
  intros Hcriteria Htime. unfold analyze_password.
  destruct (Entropy.calculate_entropy log2 fmul password) as [bits pool].
  rewrite Hcriteria. cbn [fst] in Htime. rewrite Htime. eauto.
Qed.

(** C9: in every record that analyze_password produces, found implies
    checked; when the check is disabled, when the client raises, and when
    the client returns no pair, the status is not checked, not found, with
    occurrence count 0; a status that is not checked is never found and
    has count 0. *)
Theorem analyze_password_breach_status (password : string)
    (check_breach_status : bool)
    (file : Wordlist.data_file) (cache : option (gset string))
    (analysis : PasswordAnalysis) (cache' : option (gset string)) :
  analyze_password lower strip data_path log2 fmul exp2 fdiv fixed check_breach
                   password check_breach_status file cache
  = (Ok analysis, cache') ->
  (found (breach analysis) = true -> checked (breach analysis) = true)
  /\ (check_breach_status = false -> breach analysis = not_checked)
  /\ (forall e, check_breach password = Raise e -> breach analysis = not_checked)
  /\ (check_breach password = Ok None -> breach analysis = not_checked)
  /\ (forall is_breached breach_count,
        check_breach_status = true ->
        check_breach password = Ok (Some (is_breached, breach_count)) ->
        breach analysis
        = {| checked := true; found := is_breached;
             occurrence_count := breach_count |})
  /\ (checked (breach analysis) = false ->
      found (breach analysis) = false
      /\ occurrence_count (breach analysis) = 0).
Proof.
  intros Hrun.
  destruct (analyze_password_ok _ _ _ _ _ _ Hrun) as (criteria & crack & _ & _ & ->).
  cbn [breach]. unfold status_of.
  destruct check_breach_status.
  - destruct (check_breach password) as [[[is_breached breach_count] |] | e];
      cbn; repeat split; intros; simplify_eq; try reflexivity; try discriminate.
  - cbn. repeat split; intros; simplify_eq; try reflexivity; try discriminate.
Qed.

End Environment.

(** The client of [securepass.core.breach] with its defaults, as the
    analyzer calls it. *)
Definition breach_client (_api_request : Breach.api) (password : string)
  : result (option (bool * Z)) :=
  Ok (Breach.check_breach_default _api_request password).1.

Lemma analyze_password_spec_witness :
  exists analysis cache',
    analyze_password WordlistFacts.lower_ascii WordlistFacts.strip_newline "data"
      FloatSamples.log2 FloatSamples.fmul FloatSamples.exp2 FloatSamples.fdiv FloatSamples.fixed
      (fun _ => Raise (OtherException "boom")) "password" true
      Wordlist.Absent None
    = (Ok analysis, cache')
    /\ breach analysis = not_checked.
Proof.
  destruct (analyze_password WordlistFacts.lower_ascii
              WordlistFacts.strip_newline "data"
              FloatSamples.log2 FloatSamples.fmul FloatSamples.exp2 FloatSamples.fdiv FloatSamples.fixed
              (fun _ => Raise (OtherException "boom")) "password" true
              Wordlist.Absent None) as [[analysis | e] cache'] eqn:Hrun.
  - exists analysis, cache'. split; [reflexivity |].
    destruct (analyze_password_breach_status _ _ _ _ _ _ _ _ _ _ _ _ _ _ _ Hrun)
      as (_ & _ & Hraise & _).
    apply (Hraise (OtherException "boom")). reflexivity.
  - vm_compute in Hrun. discriminate Hrun.
Defined.

(** With the real client and a service that is down, the record says
    checked and not found. *)
Example analyze_password_service_down :
  let run :=
    analyze_password WordlistFacts.lower_ascii WordlistFacts.strip_newline "data"
      FloatSamples.log2 FloatSamples.fmul FloatSamples.exp2 FloatSamples.fdiv FloatSamples.fixed
      (breach_client (fun _ _ _ => Raise (RequestException "Connection failed.")))
      "password" true Wordlist.Absent None in
  match run.1 with
  | Ok analysis =>
      breach analysis
      = {| checked := true; found := false; occurrence_count := 0 |}
  | Raise _ => False
  end.
Proof. vm_compute. reflexivity. Qed.

End AnalyzerFacts.

(** ** The generator *)

Module GeneratorFacts.
Import Generator Spec.

Lemma always_ret {A} (a : A) (P : A -> Prop) : P a -> always (mret a) P.
Proof. intros HP g. exists a, g. split; [reflexivity | exact HP]. Qed.

Lemma always_bind {A B} (m : Rand A) (k : A -> Rand B)
    (P : A -> Prop) (Q : B -> Prop) :
  always m P -> (forall a, P a -> always (k a) Q) -> always (m ≫= k) Q.
Proof.
  intros Hm Hk g. destruct (Hm g) as (a & g1 & Hrun & HP).
  destruct (Hk a HP g1) as (b & g2 & Hrun2 & HQ).
  exists b, g2. split; [| exact HQ].
  unfold mbind, rand_bind, bind. rewrite Hrun. exact Hrun2.
Qed.

Lemma always_weaken {A} (m : Rand A) (P Q : A -> Prop) :
  always m P -> (forall a, P a -> Q a) -> always m Q.
Proof.
  intros Hm HPQ g. destruct (Hm g) as (a & g' & Hrun & HP). eauto.
Qed.

Lemma always_randbelow (n : nat) :
  (0 < n)%nat -> always (randbelow n) (fun i => (i < n)%nat).
Proof.
  intros Hn g. eexists _, _. split; [reflexivity |].
  apply Nat.mod_upper_bound. lia.
Qed.

(** A choice from a non-empty sequence is one of its elements. *)
Lemma always_choice {A} (seq : list A) :
  seq <> [] -> always (choice seq) (fun c => c ∈ seq).
Proof.
  intros Hne. destruct seq as [| first rest]; [congruence |].
  unfold choice. eapply always_bind.
  - apply always_randbelow. simpl. lia.
  - intros i Hi. cbv beta in Hi. apply always_ret.
    apply list_elem_of_In, nth_In. exact Hi.
Qed.

Lemma swap_perm {A} (x : list A) (i j : nat) (xi xj : A) :
  x !! i = Some xi -> x !! j = Some xj ->
  <[j := xi]> (<[i := xj]> x) ≡ₚ x.
Proof.
  intros Hi Hj. destruct (decide (i = j)) as [-> | Hne].
  - rewrite list_insert_insert_eq. assert (xi = xj) as -> by congruence.
    rewrite list_insert_id by exact Hj. reflexivity.
  - apply Permutation_inj. split.
    + rewrite !length_insert. reflexivity.
    + exists (fun k => if decide (k = i) then j else if decide (k = j) then i else k).
      split.
      * intros a b. repeat case_decide; intros; subst; congruence.
      * intros k. repeat case_decide; subst.
        -- rewrite list_lookup_insert_ne by congruence.
           rewrite list_lookup_insert_eq by (eapply lookup_lt_Some; eauto).
           symmetry. exact Hj.
        -- rewrite list_lookup_insert_eq by
             (rewrite length_insert; eapply lookup_lt_Some; eauto).
           symmetry. exact Hi.
        -- rewrite !list_lookup_insert_ne by congruence. reflexivity.
Qed.

Lemma always_swap {A} (x : list A) (i j : nat) :
  (i < length x)%nat -> (j < length x)%nat ->
  always (swap x i j) (fun y => y ≡ₚ x).
Proof.
  intros Hi Hj. unfold swap.
  destruct (lookup_lt_is_Some_2 x i Hi) as [xi Hxi].
  destruct (lookup_lt_is_Some_2 x j Hj) as [xj Hxj].
  rewrite Hxi, Hxj. apply always_ret. eapply swap_perm; eauto.
Qed.

Lemma always_shuffle_from {A} (i : nat) :
  forall x : list A, (i < length x)%nat ->
    always (shuffle_from i x) (fun y => y ≡ₚ x).
Proof.
  induction i as [| i IH]; intros x Hi.
  - apply always_ret. reflexivity.
  - cbn [shuffle_from]. eapply always_bind.
    + apply (always_randbelow (S i + 1)). lia.
    + intros j Hj. cbv beta in Hj. eapply always_bind.
      * apply always_swap; lia.
      * intros x' Hx'. cbv beta in Hx'. eapply always_weaken.
        -- apply IH. rewrite Hx'. lia.
        -- intros y Hy. cbv beta in Hy. rewrite Hy. exact Hx'.
Qed.

(** The shuffle returns a permutation of its argument. *)
Lemma always_shuffle {A} (x : list A) : always (shuffle x) (fun y => y ≡ₚ x).
Proof.
  unfold shuffle. destruct x as [| a x].
  - apply always_ret. reflexivity.
  - apply always_shuffle_from. simpl. lia.
Qed.

(** The fill loop appends [remaining_length] characters of the pool. *)
Lemma always_fill (char_pool : string) (remaining_length : nat) :
  chars char_pool <> [] ->
  forall password_chars,
    always (fill remaining_length char_pool password_chars)
           (fun l => exists extra,
                l = (password_chars ++ extra)%list
                /\ length extra = remaining_length
                /\ forall c, c ∈ extra -> c ∈ chars char_pool).
Proof.
  intros Hpool. induction remaining_length as [| k IH]; intros password_chars.
  - apply always_ret. exists []. rewrite app_nil_r.
    split; [reflexivity | split; [reflexivity |]]. intros c Hc. inversion Hc.
  - cbn [fill]. eapply always_bind.
    + apply always_choice. exact Hpool.
    + intros c Hc. cbv beta in Hc. eapply always_weaken; [apply IH |].
      intros l (extra & -> & Hlen & Hin). exists (c :: extra).
      rewrite <- app_assoc. split; [reflexivity |]. split; [simpl; lia |].
      intros d Hd. apply elem_of_cons in Hd as [-> | Hd]; [exact Hc | auto].
Qed.

(** The alphabet a class contributes. *)
Definition alphabet (avoid_ambiguous : bool) (cls : string) : string :=
  if avoid_ambiguous then without_ambiguous cls else cls.

Lemma elem_of_chars (c : ascii) (s : string) :
  c ∈ chars s <-> char_in c s = true.
Proof.
  unfold char_in. rewrite existsb_exists, list_elem_of_In. split.
  - intros Hin. exists c. split; [exact Hin | apply Ascii.eqb_refl].
  - intros (d & Hin & Heq). apply Ascii.eqb_eq in Heq. subst. exact Hin.
Qed.

Lemma chars_app (a b : string) : chars (a ++ b) = (chars a ++ chars b)%list.
Proof. induction a as [| c a IH]; simpl; [| rewrite IH]; reflexivity. Qed.

Lemma in_lowercase_alphabet (avoid_ambiguous : bool) (c : ascii) :
  char_in c (alphabet avoid_ambiguous LOWERCASE)
  = lowercase_letter c && negb (avoid_ambiguous && ambiguous c).
Proof.
  destruct avoid_ambiguous; destruct c as [[] [] [] [] [] [] [] []]; reflexivity.
Qed.

Lemma in_uppercase_alphabet (avoid_ambiguous : bool) (c : ascii) :
  char_in c (alphabet avoid_ambiguous UPPERCASE)
  = uppercase_letter c && negb (avoid_ambiguous && ambiguous c).
Proof.
  destruct avoid_ambiguous; destruct c as [[] [] [] [] [] [] [] []]; reflexivity.
Qed.

Lemma in_digits_alphabet (avoid_ambiguous : bool) (c : ascii) :
  char_in c (alphabet avoid_ambiguous DIGITS)
  = digit c && negb (avoid_ambiguous && ambiguous c).
Proof.
  destruct avoid_ambiguous; destruct c as [[] [] [] [] [] [] [] []]; reflexivity.
Qed.

Lemma in_symbols (c : ascii) : char_in c SYMBOLS = ascii_punctuation c.
Proof. destruct c as [[] [] [] [] [] [] [] []]; reflexivity. Qed.

Lemma in_ambiguous (c : ascii) : char_in c AMBIGUOUS = ambiguous c.
Proof. destruct c as [[] [] [] [] [] [] [] []]; reflexivity. Qed.

(** No punctuation character is ambiguous, and the classes are disjoint. *)
Lemma classes_disjoint (c : ascii) :
  (ascii_punctuation c = true -> ambiguous c = false)
  /\ (ascii_punctuation c = true ->
      lowercase_letter c = false /\ uppercase_letter c = false /\ digit c = false)
  /\ (digit c = true ->
      lowercase_letter c = false /\ uppercase_letter c = false)
  /\ (lowercase_letter c = true -> uppercase_letter c = false).
Proof.
  destruct c as [[] [] [] [] [] [] [] []]; vm_compute;
    repeat split; intros; congruence.
Qed.

Lemma alphabet_nonempty (avoid_ambiguous : bool) (cls : string) :
  cls = LOWERCASE \/ cls = UPPERCASE \/ cls = DIGITS ->
  chars (alphabet avoid_ambiguous cls) <> [].
Proof.
  intros [-> | [-> | ->]]; destruct avoid_ambiguous; vm_compute; discriminate.
Qed.

(** What a class leaves in [required_chars]: one of its characters when it
    is selected, nothing otherwise. *)
Definition picks (cls : bool * string) (r : list ascii) : Prop :=
  if cls.1 then exists c, c ∈ chars cls.2 /\ r = [c] else r = [].

(** The pool and the required characters after the blocks of [classes]. *)
Definition built (classes : list (bool * string)) (acc : string * list ascii)
  : Prop :=
  chars acc.1 = flat_map (fun cls : bool * string =>
                            if cls.1 then chars cls.2 else []) classes
  /\ exists rs, Forall2 picks classes rs /\ acc.2 = concat rs.

Lemma built_nil : built [] ("", []).
Proof. split; [reflexivity |]. exists []. split; [constructor | reflexivity]. Qed.

(** One [if use_...:] block of the generator. *)
Lemma always_block (use : bool) (alpha char_pool : string)
    (required_chars : list ascii) (classes : list (bool * string)) :
  chars alpha <> [] ->
  built classes (char_pool, required_chars) ->
  always (if use then
            c ← choice (chars alpha);
            ret (char_pool ++ alpha, (required_chars ++ [c])%list)
          else ret (char_pool, required_chars))
         (built (classes ++ [(use, alpha)])).
Proof.
  intros Hne (Hpool & rs & Hrs & Hreq). simpl in Hpool, Hreq. destruct use.
  - eapply always_bind; [apply always_choice, Hne |].
    intros c Hc. cbv beta in Hc. apply always_ret. split.
    + cbn [fst]. rewrite chars_app, Hpool, flat_map_app. simpl.
      rewrite app_nil_r. reflexivity.
    + exists (rs ++ [[c]])%list. split.
      * apply Forall2_app; [exact Hrs |]. constructor; [| constructor].
        exists c. split; [exact Hc | reflexivity].
      * cbn [snd]. rewrite Hreq, concat_app. simpl. reflexivity.
  - apply always_ret. split.
    + cbn [fst]. rewrite Hpool, flat_map_app. simpl. rewrite app_nil_r. reflexivity.
    + exists (rs ++ [[]])%list. split.
      * apply Forall2_app; [exact Hrs |]. constructor; [| constructor]. reflexivity.
      * cbn [snd]. rewrite Hreq, concat_app. simpl. rewrite app_nil_r. reflexivity.
Qed.

(** What the generator returns on a valid request. *)
Definition generated (length : Z)
    (use_lowercase use_uppercase use_digits use_symbols avoid_ambiguous : bool)
    (password : string) : Prop :=
  len password = length
  /\ (forall c, c ∈ chars password ->
        allowed use_lowercase use_uppercase use_digits use_symbols
                avoid_ambiguous c = true)
  /\ (use_lowercase = true -> has_char lowercase_letter password)
  /\ (use_uppercase = true -> has_char uppercase_letter password)
  /\ (use_digits = true -> has_char digit password)
  /\ (use_symbols = true -> has_char ascii_punctuation password).

Lemma generate_password_valid (requested : pyobj) (n : Z)
    (use_lowercase use_uppercase use_digits use_symbols avoid_ambiguous : bool) :
  as_int requested = Some n ->
  8 <= n <= 128 ->
  use_lowercase || use_uppercase || use_digits || use_symbols = true ->
  always (generate_password requested use_lowercase use_uppercase use_digits
                            use_symbols avoid_ambiguous)
         (generated n use_lowercase use_uppercase use_digits use_symbols
                    avoid_ambiguous).
Proof.
  intros Hint Hn Hsome. unfold generate_password. rewrite Hint.
  destruct (Z.ltb_spec n 8); [lia |].
  destruct (Z.gtb_spec n 128); [lia |].
  eapply always_bind.
  { apply (always_block use_lowercase (alphabet avoid_ambiguous LOWERCASE) "" [] []).
    - apply alphabet_nonempty. auto.
    - apply built_nil. }
  intros [pool1 req1] H1.
  eapply always_bind.
  { eapply (always_block use_uppercase (alphabet avoid_ambiguous UPPERCASE)).
    - apply alphabet_nonempty. auto.
    - exact H1. }
  intros [pool2 req2] H2.
  eapply always_bind.
  { eapply (always_block use_digits (alphabet avoid_ambiguous DIGITS)).
    - apply alphabet_nonempty. auto.
    - exact H2. }
  intros [pool3 req3] H3.
  eapply always_bind.
  { eapply (always_block use_symbols SYMBOLS).
    - vm_compute. discriminate.
    - exact H3. }
  intros [char_pool required_chars] (Hpool & rs & Hrs & Hreq).
  cbn [fst snd app] in Hpool, Hreq, Hrs.
  apply Forall2_cons_inv_l in Hrs as (r1 & rs1 & Hp1 & Hrs & ->).
  apply Forall2_cons_inv_l in Hrs as (r2 & rs2 & Hp2 & Hrs & ->).
  apply Forall2_cons_inv_l in Hrs as (r3 & rs3 & Hp3 & Hrs & ->).
  apply Forall2_cons_inv_l in Hrs as (r4 & rs4 & Hp4 & Hrs & ->).
  apply Forall2_nil_inv_l in Hrs as ->.
  cbn [flat_map concat fst snd] in Hpool, Hreq. rewrite !app_nil_r in Hpool, Hreq.
  unfold picks in Hp1, Hp2, Hp3, Hp4. cbn [fst snd] in Hp1, Hp2, Hp3, Hp4.
  assert (Hmember : forall c, c ∈ chars char_pool ->
            allowed use_lowercase use_uppercase use_digits use_symbols
                    avoid_ambiguous c = true).
  { intros c. rewrite Hpool, !elem_of_app. unfold allowed.
    intros [Hc | [Hc | [Hc | Hc]]].
    - destruct use_lowercase; [| inversion Hc].
      apply elem_of_chars in Hc. rewrite in_lowercase_alphabet in Hc.
      cbn [andb]. rewrite Hc. reflexivity.
    - destruct use_uppercase; [| inversion Hc].
      apply elem_of_chars in Hc. rewrite in_uppercase_alphabet in Hc.
      cbn [andb]. rewrite Hc, ?orb_true_r. reflexivity.
    - destruct use_digits; [| inversion Hc].
      apply elem_of_chars in Hc. rewrite in_digits_alphabet in Hc.
      cbn [andb]. rewrite Hc, ?orb_true_r. reflexivity.
    - destruct use_symbols; [| inversion Hc].
      apply elem_of_chars in Hc. rewrite in_symbols in Hc.
      rewrite Hc. cbn [andb]. rewrite orb_true_r. reflexivity. }
  assert (Hnonempty : chars char_pool <> []).
  { rewrite Hpool. intros Heq.
    apply app_eq_nil in Heq as [Hl Heq].
    apply app_eq_nil in Heq as [Hu Heq].
    apply app_eq_nil in Heq as [Hd Hs].
    destruct use_lowercase.
    { revert Hl. apply alphabet_nonempty. auto. }
    destruct use_uppercase.
    { revert Hu. apply alphabet_nonempty. auto. }
    destruct use_digits.
    { revert Hd. apply alphabet_nonempty. auto. }
    destruct use_symbols; [| discriminate Hsome].
    revert Hs. vm_compute. discriminate. }
  assert (Hrequired : forall c, c ∈ required_chars -> c ∈ chars char_pool).
  { intros c. rewrite Hreq, Hpool, !elem_of_app.
    intros [Hc | [Hc | [Hc | Hc]]].
    - left. destruct use_lowercase; [| subst r1; inversion Hc].
      destruct Hp1 as (d & Hd & ->). apply list_elem_of_singleton in Hc. subst. exact Hd.
    - right; left. destruct use_uppercase; [| subst r2; inversion Hc].
      destruct Hp2 as (d & Hd & ->). apply list_elem_of_singleton in Hc. subst. exact Hd.
    - right; right; left. destruct use_digits; [| subst r3; inversion Hc].
      destruct Hp3 as (d & Hd & ->). apply list_elem_of_singleton in Hc. subst. exact Hd.
    - right; right; right. destruct use_symbols; [| subst r4; inversion Hc].
      destruct Hp4 as (d & Hd & ->). apply list_elem_of_singleton in Hc. subst. exact Hd. }
  assert (Hlen1 : forall (use : bool) (alpha : string) (r : list ascii),
            (if use then exists c, c ∈ chars alpha /\ r = [c] else r = []) ->
            (length r <= 1)%nat).
  { intros use alpha r Hr. destruct use; [destruct Hr as (c & _ & ->) | subst r];
      simpl; lia. }
  assert (Hlen : (length required_chars <= 4)%nat).
  { rewrite Hreq, !length_app.
    apply Hlen1 in Hp1, Hp2, Hp3, Hp4. lia. }
  destruct (is_empty char_pool) eqn:Hempty.
  { destruct char_pool; [| discriminate]. exfalso. apply Hnonempty. reflexivity. }
  eapply always_bind; [apply always_fill, Hnonempty |].
  intros filled (extra & -> & Hextra & Hin).
  eapply always_bind; [apply always_shuffle |].
  intros shuffled Hperm. cbv beta in Hperm. apply always_ret.
  assert (Hchars : forall c, c ∈ chars (join shuffled)
                             <-> c ∈ required_chars \/ c ∈ extra).
  { intros c. rewrite BreachFacts.chars_join, Hperm, elem_of_app. reflexivity. }
  assert (Hhas : forall (cls : ascii -> bool) (c : ascii),
            c ∈ required_chars -> cls c = true -> has_char cls (join shuffled)).
  { intros cls c Hc Hcls. exists c. split; [apply Hchars; left; exact Hc | exact Hcls]. }
  unfold generated. split; [| split; [| repeat split]].
  - unfold len. rewrite BreachFacts.length_join, Hperm, length_app, Hextra. lia.
  - intros c Hc. apply Hchars in Hc as [Hc | Hc]; auto.
  - intros ->. destruct Hp1 as (c & Hc & ->).
    apply (Hhas _ c); [rewrite Hreq, !elem_of_app; left; constructor |].
    apply elem_of_chars in Hc. rewrite in_lowercase_alphabet in Hc.
    apply andb_true_iff in Hc as [Hc _]. exact Hc.
  - intros ->. destruct Hp2 as (c & Hc & ->).
    apply (Hhas _ c); [rewrite Hreq, !elem_of_app; right; left; constructor |].
    apply elem_of_chars in Hc. rewrite in_uppercase_alphabet in Hc.
    apply andb_true_iff in Hc as [Hc _]. exact Hc.
  - intros ->. destruct Hp3 as (c & Hc & ->).
    apply (Hhas _ c);
      [rewrite Hreq, !elem_of_app; right; right; left; constructor |].
    apply elem_of_chars in Hc. rewrite in_digits_alphabet in Hc.
    apply andb_true_iff in Hc as [Hc _]. exact Hc.
  - intros ->. destruct Hp4 as (c & Hc & ->).
    apply (Hhas _ c);
      [rewrite Hreq, !elem_of_app; right; right; right; constructor |].
    apply elem_of_chars in Hc. rewrite in_symbols in Hc. exact Hc.
Qed.

Lemma allowed_not_ambiguous
    (use_lowercase use_uppercase use_digits use_symbols : bool) (c : ascii) :
  allowed use_lowercase use_uppercase use_digits use_symbols true c = true ->
  ambiguous c = false.
Proof.
  unfold allowed. destruct (classes_disjoint c) as (Hpunct & _).
  destruct (ambiguous c); [| reflexivity]. intros Hallowed.
  destruct (ascii_punctuation c); [apply Hpunct; reflexivity |].
  rewrite !andb_false_r in Hallowed. discriminate.
Qed.

(** A class that is not selected contributes no character. *)
Lemma allowed_excludes
    (use_lowercase use_uppercase use_digits use_symbols avoid_ambiguous : bool)
    (c : ascii) :
  allowed use_lowercase use_uppercase use_digits use_symbols avoid_ambiguous c
    = true ->
  (use_lowercase = false -> lowercase_letter c = false)
  /\ (use_uppercase = false -> uppercase_letter c = false)
  /\ (use_digits = false -> digit c = false)
  /\ (use_symbols = false -> ascii_punctuation c = false).
Proof.
  unfold allowed. destruct (classes_disjoint c) as (_ & Hpunct & Hdigit & Hlower).
  destruct (lowercase_letter c), (uppercase_letter c), (digit c),
    (ascii_punctuation c);
    try (destruct Hpunct as (? & ? & ?); [reflexivity |]; discriminate);
    try (destruct Hdigit as (? & ?); [reflexivity |]; discriminate);
    try (specialize (Hlower eq_refl); discriminate);
    destruct use_lowercase, use_uppercase, use_digits, use_symbols;
    cbn; intros Hallowed; repeat split; intros; congruence.
Qed.

(** C6: a valid request (integer length from 8 to 128, some class
    selected) returns a string of exactly that length with at least one
    character of every selected class, and none of 0, O, 1, l, I when the
    ambiguous characters are avoided; a length that is no integer, below 8
    or above 128, and a request with no class, raise a ValueError that
    says so, before any randomness is consumed. *)
Theorem generate_password_spec (requested : pyobj)
    (use_lowercase use_uppercase use_digits use_symbols avoid_ambiguous : bool)
    (g : rng) :
  (forall n, as_int requested = Some n -> 8 <= n <= 128 ->
     use_lowercase || use_uppercase || use_digits || use_symbols = true ->
     exists password g',
       generate_password requested use_lowercase use_uppercase use_digits
                         use_symbols avoid_ambiguous g = (Ok password, g')
       /\ len password = n
       /\ (use_lowercase = true -> has_char lowercase_letter password)
       /\ (use_uppercase = true -> has_char uppercase_letter password)
       /\ (use_digits = true -> has_char digit password)
       /\ (use_symbols = true -> has_char ascii_punctuation password)
       /\ (avoid_ambiguous = true ->
           forall c, c ∈ chars password -> c ∉ chars "0O1lI"))
  /\ (as_int requested = None ->
      generate_password requested use_lowercase use_uppercase use_digits
                        use_symbols avoid_ambiguous g
      = (Raise (ValueError "Length must be an integer"), g))
  /\ (forall n, as_int requested = Some n -> n < 8 ->
      generate_password requested use_lowercase use_uppercase use_digits
                        use_symbols avoid_ambiguous g
      = (Raise (ValueError "Password length must be at least 8 characters"), g))
  /\ (forall n, as_int requested = Some n -> 128 < n ->
      generate_password requested use_lowercase use_uppercase use_digits
                        use_symbols avoid_ambiguous g
      = (Raise (ValueError "Password length must not exceed 128 characters"), g))
  /\ (forall n, as_int requested = Some n -> 8 <= n <= 128 ->
      use_lowercase || use_uppercase || use_digits || use_symbols = false ->
      generate_password requested use_lowercase use_uppercase use_digits
                        use_symbols avoid_ambiguous g
      = (Raise (ValueError "At least one character set must be selected"), g)).
Proof.
  split; [| split; [| split; [| split]]].
  - intros n Hint Hn Hsome.
    destruct (generate_password_valid requested n use_lowercase use_uppercase
                use_digits use_symbols avoid_ambiguous Hint Hn Hsome g)
      as (password & g' & Hrun & Hlen & Hallowed & Hl & Hu & Hd & Hs).
    exists password, g'. repeat split; try assumption.
    intros -> c Hc Hamb. apply Hallowed, allowed_not_ambiguous in Hc.
    apply elem_of_chars in Hamb. change "0O1lI" with AMBIGUOUS in Hamb.
    rewrite in_ambiguous in Hamb. congruence.
  - intros Hint. unfold generate_password. rewrite Hint. reflexivity.
  - intros n Hint Hn. unfold generate_password. rewrite Hint.
    destruct (Z.ltb_spec n 8); [reflexivity | lia].
  - intros n Hint Hn. unfold generate_password. rewrite Hint.
    destruct (Z.ltb_spec n 8); [lia |].
    destruct (Z.gtb_spec n 128); [reflexivity | lia].
  - intros n Hint Hn Hnone. unfold generate_password. rewrite Hint.
    destruct (Z.ltb_spec n 8); [lia |].
    destruct (Z.gtb_spec n 128); [lia |].
    apply orb_false_iff in Hnone as [Hnone ->].
    apply orb_false_iff in Hnone as [Hnone ->].
    apply orb_false_iff in Hnone as [-> ->]. reflexivity.
Qed.

(** C10: on a valid request every character of the returned string is in
    the union of the selected classes' alphabets, without the ambiguous
    characters in the alphanumeric classes when those are avoided; a class
    that is not selected contributes nothing: no punctuation without
    use_symbols, no digit without use_digits, and likewise for letters. *)
Theorem generate_password_alphabet (requested : pyobj) (n : Z)
    (use_lowercase use_uppercase use_digits use_symbols avoid_ambiguous : bool)
    (g : rng) :
  as_int requested = Some n ->
  8 <= n <= 128 ->
  use_lowercase || use_uppercase || use_digits || use_symbols = true ->
  exists password g',
    generate_password requested use_lowercase use_uppercase use_digits
                      use_symbols avoid_ambiguous g = (Ok password, g')
    /\ forall c, c ∈ chars password ->
         allowed use_lowercase use_uppercase use_digits use_symbols
                 avoid_ambiguous c = true
         /\ (use_symbols = false -> ascii_punctuation c = false)
         /\ (use_digits = false -> digit c = false)
         /\ (use_lowercase = false -> lowercase_letter c = false)
         /\ (use_uppercase = false -> uppercase_letter c = false).
Proof.
  intros Hint Hn Hsome.
  destruct (generate_password_valid requested n use_lowercase use_uppercase
              use_digits use_symbols avoid_ambiguous Hint Hn Hsome g)
    as (password & g' & Hrun & _ & Hallowed & _).
  exists password, g'. split; [exact Hrun |].
  intros c Hc. apply Hallowed in Hc.
  destruct (allowed_excludes _ _ _ _ _ _ Hc) as (Hl & Hu & Hd & Hs).
  repeat split; assumption.
Qed.

(** A random source for the examples. *)
Definition sample_rng : rng :=
  {| draws := fun i => (7 * i * i + 3 * i + 5)%nat; pos := 0 |}.

Lemma generate_password_spec_witness :
  (exists password g',
     generate_password (PyInt 20) true true true true true sample_rng
       = (Ok password, g')
     /\ len password = 20
     /\ has_char digit password
     /\ forall c, c ∈ chars password -> c ∉ chars "0O1lI")
  /\ generate_password (PyStr "16") true true true true false sample_rng
     = (Raise (ValueError "Length must be an integer"), sample_rng)
  /\ generate_password (PyInt 7) true true true true false sample_rng
     = (Raise (ValueError "Password length must be at least 8 characters"),
        sample_rng)
  /\ generate_password (PyInt 129) true true true true false sample_rng
     = (Raise (ValueError "Password length must not exceed 128 characters"),
        sample_rng)
  /\ generate_password (PyInt 16) false false false false false sample_rng
     = (Raise (ValueError "At least one character set must be selected"),
        sample_rng).
Proof.
  destruct (generate_password_spec (PyInt 20) true true true true true sample_rng)
    as (Hvalid & _).
  destruct (generate_password_spec (PyStr "16") true true true true false sample_rng)
    as (_ & Htype & _).
  destruct (generate_password_spec (PyInt 7) true true true true false sample_rng)
    as (_ & _ & Hshort & _).
  destruct (generate_password_spec (PyInt 129) true true true true false sample_rng)
    as (_ & _ & _ & Hlong & _).
  destruct (generate_password_spec (PyInt 16) false false false false false sample_rng)
    as (_ & _ & _ & _ & Hnone).
  split; [| split; [| split; [| split]]].
  - destruct (Hvalid 20) as (password & g' & Hrun & Hlen & _ & _ & Hd & _ & Hamb);
      [reflexivity | lia | reflexivity |].
    exists password, g'. split; [exact Hrun |]. split; [exact Hlen |].
    split; [apply Hd; reflexivity | apply Hamb; reflexivity].
  - apply Htype. reflexivity.
  - apply (Hshort 7); [reflexivity | lia].
  - apply (Hlong 129); [reflexivity | lia].
  - apply (Hnone 16); [reflexivity | lia | reflexivity].
Defined.

Lemma generate_password_alphabet_witness :
  exists password g',
    generate_password (PyInt 12) true false false false true sample_rng
      = (Ok password, g')
    /\ forall c, c ∈ chars password ->
         lowercase_letter c = true /\ digit c = false
         /\ ascii_punctuation c = false.
Proof.
  destruct (generate_password_alphabet (PyInt 12) 12 true false false false true
              sample_rng) as (password & g' & Hrun & Hchars);
    [reflexivity | lia | reflexivity |].
  exists password, g'. split; [exact Hrun |].
  intros c Hc. destruct (Hchars c Hc) as (Hallowed & Hs & Hd & _).
  split; [| split; [apply Hd | apply Hs]; reflexivity].
  unfold allowed in Hallowed. cbn [andb orb] in Hallowed.
  rewrite !orb_false_r in Hallowed.
  apply andb_true_iff in Hallowed as [Hlower _]. exact Hlower.
Defined.

Example generate_password_runs :
  (generate_password (PyInt 20) true true true true false sample_rng).1
    = Ok "p^J*jh:N7Z^J9Bffl.Ph"
  /\ (generate_password (PyInt 8) false false true false true sample_rng).1
     = Ok "93597735"
  /\ (generate_password (PyBool true) true true true true false sample_rng).1
     = Raise (ValueError "Password length must be at least 8 characters").
Proof. repeat split; vm_compute; reflexivity. Qed.

End GeneratorFacts.

(** * Further functions of the package *)

(** ** securepass.utils.patterns, continued *)

Module PatternsMore.


Section Lower.
(** [str.lower] *)
Variable lower : string -> string.

End Lower.

(** [range(start, stop)] *)
Definition range_from (start stop : Z) : list Z :=
  map (fun k => start + Z.of_nat k) (seq 0 (Z.to_nat (stop - start))).

(** [s[i]] for an index that is not negative; out of range it raises. *)
Definition index (cs : list ascii) (i : Z) : result ascii :=
  match cs !! Z.to_nat i with
  | Some c => Ok c
  | None => Raise (IndexError "string index out of range")
  end.

(** The inner loop [for j in range(1, min_repeats)]: false at the first
    position that is past the end or holds another character.  The test
    [i + j >= len(password)] comes first, so the indexing is in range. *)
Fixpoint repeats_at (cs : list ascii) (i : Z) (char : ascii) (js : list Z)
  : result bool :=
  match js with
  | [] => Ok true
  | j :: rest =>
      if i + j >=? Z.of_nat (length cs) then Ok false
      else
        match index cs (i + j) with
        | Raise e => Raise e
        | Ok c =>
            if negb (Ascii.eqb c char) then Ok false
            else repeats_at cs i char rest
        end
  end.

(** The outer loop over the start positions. *)
Fixpoint scan_repeats (cs : list ascii) (min_repeats : Z) (starts : list Z)
  : result bool :=
  match starts with
  | [] => Ok false
  | i :: rest =>
      match index cs i with
      | Raise e => Raise e
      | Ok char =>
          match repeats_at cs i char (range_from 1 min_repeats) with
          | Raise e => Raise e
          | Ok is_repeated =>
              if is_repeated then Ok true
              else scan_repeats cs min_repeats rest
          end
      end
  end.

Definition has_repeated_chars (password : string) (min_repeats : Z)
  : result bool :=
  if is_empty password || (len password <? min_repeats) then Ok false
  else scan_repeats (chars password) min_repeats
         (Patterns.range (len password - min_repeats + 1)).

(** The default [min_repeats=3]. *)
Definition has_repeated_chars_default (password : string) : result bool :=
  has_repeated_chars password 3.

(** The [m] characters from position [i] on exist and go up by [step] code
    points each. *)
Definition run_of (step : Z) (m : nat) (password : string) (i : nat) : Prop :=
  (i + m <= length (chars password))%nat
  /\ forall j a b, (j + 1 < m)%nat ->
       chars password !! (i + j)%nat = Some a ->
       chars password !! (i + j + 1)%nat = Some b ->
       ord b = ord a + step.

(** The [m] characters from position [i] on exist and are all [c]. *)
Definition repeat_of (m : nat) (password : string) (i : nat) (c : ascii)
  : Prop :=
  forall j, (j < m)%nat -> chars password !! (i + j)%nat = Some c.

End PatternsMore.

Module PatternsMoreFacts.
Import Patterns PatternsMore Spec.

Lemma all_steps_lookup (step : Z) (l : list ascii) :
  all_steps step l = true
  <-> forall j a b, l !! j = Some a -> l !! (j + 1)%nat = Some b ->
                    ord b = ord a + step.
Proof.
  induction l as [| x l IH]; [split; [intros _ j a b H; inversion H | reflexivity] |].
  destruct l as [| y l].
  - split; [| reflexivity]. intros _ [| j] a b Ha Hb; inversion Hb.
  - cbn [all_steps]. destruct (Z.eqb_spec (ord y) (ord x + step)) as [Heq | Hne].
    + rewrite IH. split.
      * intros Hrest [| j] a b Ha Hb.
        -- injection Ha as <-. injection Hb as <-. exact Heq.
        -- exact (Hrest j a b Ha Hb).
      * intros Hall j a b Ha Hb. exact (Hall (S j) a b Ha Hb).
    + split; [discriminate |]. intros Hall. exfalso. apply Hne.
      exact (Hall 0%nat x y eq_refl eq_refl).
Qed.

Lemma all_steps_short (step : Z) (l : list ascii) :
  (length l <= 1)%nat -> all_steps step l = true.
Proof. destruct l as [| x [| y l]]; simpl; [reflexivity | reflexivity | lia]. Qed.

Lemma window_lookup (cs : list ascii) (i m j : nat) :
  take m (drop i cs) !! j = if decide (j < m)%nat then cs !! (i + j)%nat else None.
Proof.
  case_decide.
  - rewrite lookup_take_lt by assumption. apply lookup_drop.
  - apply lookup_take_ge. lia.
Qed.

(** A window that fits is a run exactly when the specification says so. *)
Lemma window_run_of (step : Z) (password : string) (i m : nat) :
  (i + m <= length (chars password))%nat ->
  all_steps step (slice (chars password) (Z.of_nat i) (Z.of_nat i + Z.of_nat m))
    = true
  <-> run_of step m password i.
Proof.
  intros Hfit. replace (Z.of_nat i + Z.of_nat m) with (Z.of_nat (i + m)) by lia.
  rewrite BreachFacts.slice_take_drop by lia.
  replace (i + m - i)%nat with m by lia.
  rewrite all_steps_lookup. unfold run_of. split.
  - intros Hall. split; [exact Hfit |]. intros j a b Hj Ha Hb.
    apply (Hall j a b); rewrite window_lookup.
    + rewrite decide_True by lia. exact Ha.
    + rewrite decide_True by lia. rewrite Nat.add_assoc. exact Hb.
  - intros [_ Hall] j a b Ha Hb. rewrite window_lookup in Ha, Hb.
    case_decide; [| discriminate]. case_decide; [| discriminate].
    apply (Hall j a b); [lia | exact Ha |]. rewrite <- Nat.add_assoc. exact Hb.
Qed.

(** X1: For every minimum run length: from 1 on, has_sequential_chars is true
    exactly when that many consecutive characters step by +1 each or by -1
    each; up to 1, including zero and negative values, it is true on every
    non-empty password. *)
Theorem has_sequential_chars_any_length (password : string) (min_length : Z) :
  (1 <= min_length ->
   has_sequential_chars password min_length = true
   <-> exists i : nat, run_of 1 (Z.to_nat min_length) password i
                       \/ run_of (-1) (Z.to_nat min_length) password i)
  /\ (min_length <= 1 ->
      has_sequential_chars password min_length = negb (is_empty password)).
Proof.
  pose proof (PatternFacts.len_chars password) as Hlen.
  unfold has_sequential_chars. split.
  - intros Hmin.
    destruct (is_empty password || (len password <? min_length)) eqn:Hshort.
    + split; [discriminate |]. intros (i & Hrun).
      assert (Hfit : (i + Z.to_nat min_length <= length (chars password))%nat)
        by (destruct Hrun as [H | H]; apply H).
      apply orb_true_iff in Hshort as [Hempty | Hlt].
      * destruct password; [simpl in Hfit; lia | discriminate].
      * apply Z.ltb_lt in Hlt. lia.
    + apply orb_false_iff in Hshort as [_ Hge]. apply Z.ltb_ge in Hge.
      rewrite PatternFacts.scan_windows_true. split.
      * intros (i & Hi & Hrun). apply PatternFacts.elem_of_range in Hi.
        exists (Z.to_nat i).
        assert (Hfit : (Z.to_nat i + Z.to_nat min_length
                        <= length (chars password))%nat) by lia.
        rewrite <- !(window_run_of _ _ _ _ Hfit), !Z2Nat.id by lia. exact Hrun.
      * intros (i & Hrun).
        assert (Hfit : (i + Z.to_nat min_length <= length (chars password))%nat)
          by (destruct Hrun as [H | H]; apply H).
        exists (Z.of_nat i). split; [apply PatternFacts.elem_of_range; lia |].
        rewrite <- !(window_run_of _ _ _ _ Hfit), Z2Nat.id in Hrun by lia.
        exact Hrun.
  - intros Hmin. destruct password as [| c rest]; [reflexivity |].
    cbn [is_empty orb negb].
    assert (Hpos : 1 <= len (String c rest)) by (unfold len; simpl; lia).
    destruct (Z.ltb_spec (len (String c rest)) min_length); [lia |].
    apply PatternFacts.scan_windows_true.
    exists (len (String c rest) - min_length).
    split; [apply PatternFacts.elem_of_range; lia |]. left.
    apply all_steps_short. unfold slice, slice_bound.
    rewrite <- Hlen.
    replace (len (String c rest) - min_length + min_length)
      with (len (String c rest)) by lia.
    destruct (Z.ltb_spec (len (String c rest) - min_length) 0); [lia |].
    destruct (Z.ltb_spec (len (String c rest)) 0); [lia |].
    rewrite length_take, length_drop. lia.
Qed.

Lemma has_sequential_chars_any_length_witness :
  (has_sequential_chars "xy3456z" 4 = true
   <-> exists i : nat, run_of 1 4 "xy3456z" i \/ run_of (-1) 4 "xy3456z" i)
  /\ has_sequential_chars "q" (-2) = true.
Proof.
  split.
  - apply (has_sequential_chars_any_length "xy3456z" 4). lia.
  - apply (has_sequential_chars_any_length "q" (-2)). lia.
Defined.

Lemma elem_of_range_from (start stop j : Z) :
  j ∈ range_from start stop <-> start <= j < stop.
Proof.
  unfold range_from. rewrite list_elem_of_fmap. split.
  - intros (k & -> & Hk). apply elem_of_seq in Hk. lia.
  - intros Hj. exists (Z.to_nat (j - start)). split; [lia |].
    apply elem_of_seq. lia.
Qed.

Lemma index_lookup (cs : list ascii) (i : nat) (c : ascii) :
  cs !! i = Some c -> index cs (Z.of_nat i) = Ok c.
Proof. intros H. unfold index. rewrite Nat2Z.id, H. reflexivity. Qed.

(** The inner loop never raises and is true exactly when every position it
    visits holds [char]. *)
Lemma repeats_at_spec (cs : list ascii) (i : nat) (char : ascii) (js : list Z) :
  (forall j, j ∈ js -> 0 <= j) ->
  exists b, repeats_at cs (Z.of_nat i) char js = Ok b
            /\ (b = true <-> forall j, j ∈ js ->
                               cs !! (i + Z.to_nat j)%nat = Some char).
Proof.
  induction js as [| j js IH]; intros Hpos.
  - exists true. split; [reflexivity |]. split; [| reflexivity].
    intros _ j Hj. inversion Hj.
  - cbn [repeats_at]. assert (Hj : 0 <= j) by (apply Hpos; left).
    destruct IH as (b & Hrun & Hb); [intros k Hk; apply Hpos; right; exact Hk |].
    destruct (Z.geb_spec (Z.of_nat i + j) (Z.of_nat (length cs))) as [Hout | Hin].
    + exists false. split; [reflexivity |]. split; [discriminate |].
      intros Hall. specialize (Hall j (list_elem_of_here _ _)).
      apply lookup_lt_Some in Hall. lia.
    + destruct (lookup_lt_is_Some_2 cs (i + Z.to_nat j)) as [c Hc]; [lia |].
      replace (Z.of_nat i + j) with (Z.of_nat (i + Z.to_nat j)) by lia.
      rewrite (index_lookup _ _ _ Hc).
      destruct (Ascii.eqb_spec c char) as [-> | Hne]; cbn [negb].
      * exists b. split; [exact Hrun |]. rewrite Hb. split.
        -- intros Hall k Hk. apply elem_of_cons in Hk as [-> | Hk]; auto.
        -- intros Hall k Hk. apply Hall. right. exact Hk.
      * exists false. split; [reflexivity |]. split; [discriminate |].
        intros Hall. specialize (Hall j (list_elem_of_here _ _)). congruence.
Qed.

Lemma scan_repeats_spec (cs : list ascii) (min_repeats : Z) (starts : list Z) :
  (forall i, i ∈ starts -> 0 <= i < Z.of_nat (length cs)) ->
  exists b, scan_repeats cs min_repeats starts = Ok b
            /\ (b = true <-> exists i c, i ∈ starts
                  /\ cs !! Z.to_nat i = Some c
                  /\ forall j, 1 <= j < min_repeats ->
                       cs !! (Z.to_nat i + Z.to_nat j)%nat = Some c).
Proof.
  induction starts as [| i starts IH]; intros Hin.
  - exists false. split; [reflexivity |]. split; [discriminate |].
    intros (i & c & Hi & _). inversion Hi.
  - cbn [scan_repeats]. assert (Hi : 0 <= i < Z.of_nat (length cs)) by (apply Hin; left).
    destruct (lookup_lt_is_Some_2 cs (Z.to_nat i)) as [char Hchar]; [lia |].
    unfold index at 1. rewrite Hchar.
    destruct (repeats_at_spec cs (Z.to_nat i) char (range_from 1 min_repeats))
      as (r & Hrun & Hr); [intros j Hj; apply elem_of_range_from in Hj; lia |].
    rewrite Z2Nat.id in Hrun by lia. rewrite Hrun.
    destruct IH as (b & Hscan & Hb); [intros k Hk; apply Hin; right; exact Hk |].
    destruct r.
    + exists true. split; [reflexivity |]. split; [| reflexivity]. intros _.
      exists i, char. split; [left |]. split; [exact Hchar |].
      intros j Hj. apply Hr; [reflexivity | apply elem_of_range_from; exact Hj].
    + exists b. split; [exact Hscan |]. rewrite Hb. split.
      * intros (k & c & Hk & Hrest). exists k, c. split; [right; exact Hk | exact Hrest].
      * intros (k & c & Hk & Hc & Hall).
        apply elem_of_cons in Hk as [-> | Hk]; [| eauto 6].
        exfalso. assert (c = char) as -> by congruence.
        assert (false = true); [| discriminate]. apply Hr.
        intros j Hj. apply elem_of_range_from in Hj. apply Hall. exact Hj.
Qed.

(** X2: has_repeated_chars never raises; for a count of at least 1 it is true
    exactly when some character occurs that many times in a row, and for a
    count of at most 1, zero and negative values included, it is true on
    every non-empty password. *)
Theorem has_repeated_chars_spec (password : string) (min_repeats : Z) :
  exists b, has_repeated_chars password min_repeats = Ok b
    /\ (1 <= min_repeats ->
        b = true <-> exists i c, repeat_of (Z.to_nat min_repeats) password i c)
    /\ (min_repeats <= 1 -> b = negb (is_empty password)).
Proof.
  pose proof (PatternFacts.len_chars password) as Hlen.
  unfold has_repeated_chars.
  destruct (is_empty password || (len password <? min_repeats)) eqn:Hshort.
  - exists false. split; [reflexivity |]. split.
    + intros Hmin. split; [discriminate |]. intros (i & c & Hrep).
      assert (Hlast : chars password !! (i + (Z.to_nat min_repeats - 1))%nat = Some c)
        by (apply Hrep; lia).
      apply lookup_lt_Some in Hlast.
      apply orb_true_iff in Hshort as [Hempty | Hlt].
      * destruct password; [simpl in Hlast; lia | discriminate].
      * apply Z.ltb_lt in Hlt. lia.
    + intros Hmin. apply orb_true_iff in Hshort as [Hempty | Hlt].
      * rewrite Hempty. reflexivity.
      * apply Z.ltb_lt in Hlt. destruct password; [reflexivity |].
        unfold len in Hlt. simpl in Hlt. lia.
  - apply orb_false_iff in Hshort as [Hne Hge]. apply Z.ltb_ge in Hge.
    destruct (Z.le_gt_cases 1 min_repeats) as [Hmin | Hmin].
    + destruct (scan_repeats_spec (chars password) min_repeats
                  (range (len password - min_repeats + 1)))
        as (b & Hscan & Hb);
        [intros i Hi; apply PatternFacts.elem_of_range in Hi; lia |].
      exists b. split; [exact Hscan |]. split.
      * intros _. rewrite Hb. unfold repeat_of. split.
        -- intros (i & c & Hi & Hc & Hall). exists (Z.to_nat i), c.
           intros [| j] Hj; [rewrite Nat.add_0_r; exact Hc |].
           specialize (Hall (Z.of_nat (S j))). rewrite Nat2Z.id in Hall.
           apply Hall. lia.
        -- intros (i & c & Hall). exists (Z.of_nat i), c. rewrite Nat2Z.id.
           assert (Hlast : chars password !! (i + (Z.to_nat min_repeats - 1))%nat
                           = Some c) by (apply Hall; lia).
           apply lookup_lt_Some in Hlast.
           split; [apply PatternFacts.elem_of_range; lia |]. split.
           ++ rewrite <- (Nat.add_0_r i). apply Hall. lia.
           ++ intros j Hj. apply Hall. lia.
      * intros Hle. assert (min_repeats = 1) as -> by lia.
        rewrite Hne. cbn [negb]. apply Hb.
        destruct (lookup_lt_is_Some_2 (chars password) 0) as [c Hc]; [lia |].
        exists 0, c. split; [apply PatternFacts.elem_of_range; lia |].
        split; [exact Hc |]. intros j Hj. lia.
    + exists true. split; [| split; [lia | intros _; rewrite Hne; reflexivity]].
      assert (Hstarts : exists rest,
                range (len password - min_repeats + 1) = 0 :: rest).
      { unfold range.
        destruct (Z.to_nat (len password - min_repeats + 1)) eqn:Hn; [lia |].
        simpl. eauto. }
      destruct Hstarts as (rest & ->). cbn [scan_repeats].
      destruct (lookup_lt_is_Some_2 (chars password) 0) as [c Hc];
        [destruct password; [discriminate | simpl; lia] |].
      unfold index. change (Z.to_nat 0) with 0%nat. rewrite Hc.
      unfold range_from. replace (Z.to_nat (min_repeats - 1)) with 0%nat by lia.
      reflexivity.
Qed.

Lemma has_repeated_chars_spec_witness :
  (exists b, has_repeated_chars "aabbbc" 3 = Ok b
     /\ (b = true <-> exists i c, repeat_of 3 "aabbbc" i c))
  /\ (exists b, has_repeated_chars "ab" 0 = Ok b /\ b = true).
Proof.
  destruct (has_repeated_chars_spec "aabbbc" 3) as (b & Hrun & Hiff & _).
  destruct (has_repeated_chars_spec "ab" 0) as (b' & Hrun' & _ & Hdeg).
  split.
  - exists b. split; [exact Hrun |]. apply Hiff. lia.
  - exists b'. split; [exact Hrun' |]. apply Hdeg. lia.
Defined.

Example has_repeated_chars_examples :
  has_repeated_chars_default "aaa" = Ok true
  /\ has_repeated_chars_default "aabbcc" = Ok false
  /\ has_repeated_chars "ab" 0 = Ok true.
Proof. repeat split; reflexivity. Qed.

End PatternsMoreFacts.

(** ** The two substring detectors *)

Module SubstringFacts.
Import Patterns PatternsMore Spec.




Section Lower.
Variable lower : string -> string.





End Lower.



End SubstringFacts.

(** ** The wordlist cache *)

Module WordlistMoreFacts.
Import Wordlist Spec.

Section Builtins.
Variable lower strip : string -> string.
Variable data_path : string.

Lemma read_words_from (lines : list string) (acc : gset string) (word : string) :
  word ∈ foldl (fun wordlist line =>
                  let word := lower (strip line) in
                  if is_empty word then wordlist else wordlist ∪ {[ word ]})
               acc lines
  <-> word ∈ acc
      \/ (word <> "" /\ exists line, line ∈ lines /\ word = lower (strip line)).
Proof.
  revert acc. induction lines as [| line lines IH]; intros acc; simpl.
  - split; [auto |]. intros [H | (_ & l & Hl & _)]; [exact H | inversion Hl].
  - rewrite IH. destruct (lower (strip line)) as [| c w] eqn:Hline; cbn [is_empty].
    + split.
      * intros [H | (Hne & l & Hl & Heq)]; [auto |].
        right. split; [exact Hne |]. exists l. split; [right; exact Hl | exact Heq].
      * intros [H | (Hne & l & Hl & Heq)]; [auto |].
        apply elem_of_cons in Hl as [-> | Hl]; [congruence |].
        right. split; [exact Hne |]. eauto.
    + rewrite elem_of_union, elem_of_singleton. split.
      * intros [[H | ->] | (Hne & l & Hl & Heq)].
        -- auto.
        -- right. split; [discriminate |]. exists line. split; [left | congruence].
        -- right. split; [exact Hne |]. exists l. split; [right; exact Hl | exact Heq].
      * intros [H | (Hne & l & Hl & Heq)]; [auto |].
        apply elem_of_cons in Hl as [-> | Hl]; [left; right; congruence |].
        right. split; [exact Hne |]. eauto.
Qed.

(** X4: The wordlist read from the file holds exactly the non-empty results of
    stripping and lowercasing a line: blank lines leave nothing behind and
    entries are stored in lower case. *)
Theorem read_words_spec (lines : list string) (word : string) :
  word ∈ read_words lower strip lines
  <-> word <> "" /\ exists line, line ∈ lines /\ word = lower (strip line).
Proof.
  unfold read_words. rewrite read_words_from. split; [| auto].
  intros [H | H]; [| exact H]. exfalso. revert H. apply not_elem_of_empty.
Qed.

(** On a file that is absent or read to its end, the load and the check
    are those of [load_wordlist] and [contains_dictionary_word]. *)
Lemma load_wordlist_from_absent (cache : option (gset string)) :
  load_wordlist_from lower strip data_path Absent cache
  = load_wordlist lower strip data_path None cache.
Proof. destruct cache; reflexivity. Qed.

Lemma load_wordlist_from_lines (lines : list string)
    (cache : option (gset string)) :
  load_wordlist_from lower strip data_path (Lines lines) cache
  = load_wordlist lower strip data_path (Some lines) cache.
Proof. destruct cache; reflexivity. Qed.

Lemma contains_dictionary_word_from_absent (password : string)
    (cache : option (gset string)) :
  contains_dictionary_word_from lower strip data_path password Absent cache
  = contains_dictionary_word lower strip data_path password None cache.
Proof.
  unfold contains_dictionary_word_from, contains_dictionary_word.
  rewrite load_wordlist_from_absent. reflexivity.
Qed.

Lemma contains_dictionary_word_from_lines (password : string)
    (lines : list string) (cache : option (gset string)) :
  contains_dictionary_word_from lower strip data_path password (Lines lines) cache
  = contains_dictionary_word lower strip data_path password (Some lines) cache.
Proof.
  unfold contains_dictionary_word_from, contains_dictionary_word.
  rewrite load_wordlist_from_lines.
  destruct (is_empty password); [reflexivity |].
  destruct (load_wordlist lower strip data_path (Some lines) cache)
    as [[wordlist | e] cache'] eqn:Hload; [reflexivity |].
  unfold load_wordlist in Hload. destruct cache; discriminate Hload.
Qed.

(** X5: The file is read at most once: after a load that succeeded, every
    later load returns the same set whatever has become of the file, also
    when it can no longer be read, and the dictionary check no longer
    depends on the file; a load that raised found no cache and leaves the
    cache empty, it raised FileNotFoundError when the file is absent and
    the exception of the read when the file cannot be read, and a later
    call tries the file again. *)
Theorem load_wordlist_once (file : data_file) (cache : option (gset string)) :
  (forall wordlist cache',
     load_wordlist_from lower strip data_path file cache = (Ok wordlist, cache') ->
     cache' = Some wordlist
     /\ (forall file',
          load_wordlist_from lower strip data_path file' cache'
          = (Ok wordlist, cache'))
     /\ (forall password file' file'',
          contains_dictionary_word_from lower strip data_path
            password file' cache'
          = contains_dictionary_word_from lower strip data_path
              password file'' cache'))
  /\ (forall e cache',
      load_wordlist_from lower strip data_path file cache = (Raise e, cache') ->
      cache = None /\ cache' = None
      /\ (file = Absent ->
          e = FileNotFoundError
                ("Common passwords file not found at: " ++ data_path ++
                 String "010" "Please ensure data/common_passwords.txt exists."))
      /\ (forall e', file = Unreadable e' -> e = e')
      /\ forall lines,
           load_wordlist_from lower strip data_path (Lines lines) cache'
           = (Ok (read_words lower strip lines),
              Some (read_words lower strip lines))).
Proof.
  unfold load_wordlist_from, load_wordlist. split.
  - intros wordlist cache' Hload.
    assert (Hcache : cache' = Some wordlist).
    { destruct cache as [w |]; [| destruct file as [| lines | e]]; congruence. }
    subst cache'. split; [reflexivity |]. split; [reflexivity |].
    intros password file' file''.
    unfold contains_dictionary_word_from, load_wordlist_from. reflexivity.
  - intros e cache' Hload.
    destruct cache as [w |]; [discriminate |].
    destruct file as [| lines | e0]; [| discriminate |];
      injection Hload as <- <-; repeat split; try reflexivity;
      intros; congruence.
Qed.

End Builtins.

Lemma load_wordlist_once_witness :
  (forall file',
     load_wordlist_from WordlistFacts.lower_ascii WordlistFacts.strip_newline
       "data" file'
       (Some (read_words WordlistFacts.lower_ascii
                         WordlistFacts.strip_newline
                         WordlistFacts.sample_file))
     = (Ok (read_words WordlistFacts.lower_ascii WordlistFacts.strip_newline
                       WordlistFacts.sample_file),
        Some (read_words WordlistFacts.lower_ascii WordlistFacts.strip_newline
                         WordlistFacts.sample_file)))
  /\ load_wordlist_from WordlistFacts.lower_ascii WordlistFacts.strip_newline
       "data" (Lines ["abcd"]) None
     = (Ok (read_words WordlistFacts.lower_ascii WordlistFacts.strip_newline
                       ["abcd"]),
        Some (read_words WordlistFacts.lower_ascii WordlistFacts.strip_newline
                         ["abcd"])).
Proof.
  destruct (load_wordlist_once WordlistFacts.lower_ascii
              WordlistFacts.strip_newline "data"
              (Lines WordlistFacts.sample_file) None) as (Hok & _).
  destruct (load_wordlist_once WordlistFacts.lower_ascii
              WordlistFacts.strip_newline "data"
              (Unreadable (OtherException "PermissionError")) None)
    as (_ & Hfail).
  split.
  - apply (Hok _ _ eq_refl).
  - apply (Hfail _ _ eq_refl).
Defined.

(** A file that cannot be read: the load raises, the cache stays empty,
    and the dictionary check passes the exception on. *)
Example contains_dictionary_word_unreadable :
  contains_dictionary_word_from WordlistFacts.lower_ascii
    WordlistFacts.strip_newline "data" "password"
    (Unreadable (OtherException "IsADirectoryError")) None
  = (Raise (OtherException "IsADirectoryError"), None).
Proof. reflexivity. Qed.

End WordlistMoreFacts.

(** ** securepass.core.breach, continued: the request itself *)

Module BreachHttp.

(** What [requests.get] followed by [raise_for_status] comes to: a body,
    given by its lines, with the error of a bad status if there is one; a
    timeout; a failed connection; or another exception. *)
Inductive response : Type :=
| Responded (status_error : option string) (text_lines : list string)
| TimedOut
| ConnectionFailed
| Failed (e : exn).

(** [line.split(':', 1)] for a line that holds a colon: the text before
    the first colon and the text after it. *)
Fixpoint split_first (line : string) : string * string :=
  match line with
  | EmptyString => (EmptyString, EmptyString)
  | String c rest =>
      if Ascii.eqb c ":" then (EmptyString, rest)
      else let '(before, after) := split_first rest in (String c before, after)
  end.

Section Client.
(** The builtin [int] on a string: a number, or a [ValueError]. *)
Variable int : string -> result Z.

(** The loop over [response.text.splitlines()]. *)
Fixpoint parse_lines (lines : list string) : result (list (string * Z)) :=
  match lines with
  | [] => Ok []
  | line :: rest =>
      if char_in ":" line then
        let '(suffix, count) := split_first line in
        match int count with
        | Raise e => Raise e
        | Ok n =>
            match parse_lines rest with
            | Raise e => Raise e
            | Ok suffixes => Ok ((suffix, n) :: suffixes)
            end
        end
      else parse_lines rest
  end.

Definition api_url (hash_prefix : string) : string :=
  "https://api.pwnedpasswords.com/range/" ++ hash_prefix.

Definition headers : list (string * string) :=
  [ ("User-Agent", "SecurePass-Toolkit-v1.0"); ("Add-Padding", "true") ].

(** [requests_installed] is false when the import of [requests] failed;
    [get] answers for [requests.get] with [raise_for_status]. *)
Definition _api_request (requests_installed : bool)
    (get : string -> list (string * string) -> Z -> response)
    (hash_prefix : string) (timeout : Z) : result (list (string * Z)) :=
  if negb requests_installed then
    Raise (OtherException "requests library is required for breach checking")
  else
    match get (api_url hash_prefix) headers timeout with
    | Responded None text_lines => parse_lines text_lines
    | Responded (Some e) _ =>
        Raise (RequestException ("HTTP error occurred: " ++ e))
    | TimedOut =>
        Raise (RequestException
                 "Request timed out. Check your internet connection.")
    | ConnectionFailed =>
        Raise (RequestException
                 "Connection failed. Check your internet connection.")
    | Failed e => Raise e
    end.

(** The client's view of a service whose answer to call number [attempt]
    is [get attempt]. *)
Definition api_of (requests_installed : bool)
    (get : Z -> string -> list (string * string) -> Z -> response)
  : Breach.api :=
  fun attempt hash_prefix timeout =>
    _api_request requests_installed (get attempt) hash_prefix timeout.

End Client.

(** A line of the body: padding or noise without a colon, or a pair. *)
Definition body_line (show : Z -> string) (item : string + string * Z) : string :=
  match item with
  | inl noise => noise
  | inr (suffix, count) => suffix ++ ":" ++ show count
  end.

(** The pairs among the items. *)
Definition pairs_of (items : list (string + string * Z)) : list (string * Z) :=
  omap (fun item => match item with inl _ => None | inr p => Some p end) items.

(** No colon in the noise, none in the suffixes. *)
Definition well_formed (item : string + string * Z) : Prop :=
  match item with
  | inl noise => char_in ":" noise = false
  | inr (suffix, _) => char_in ":" suffix = false
  end.

End BreachHttp.

Module BreachHttpFacts.
Import Breach BreachHttp Spec.

Lemma char_in_cons (c d : ascii) (s : string) :
  char_in c (String d s) = Ascii.eqb c d || char_in c s.
Proof. reflexivity. Qed.

Lemma split_first_app (suffix rest : string) :
  char_in ":" suffix = false ->
  split_first (suffix ++ ":" ++ rest) = (suffix, rest)
  /\ char_in ":" (suffix ++ ":" ++ rest) = true.
Proof.
  induction suffix as [| c suffix IH]; intros Hfree.
  - split; reflexivity.
  - rewrite char_in_cons in Hfree. apply orb_false_iff in Hfree as [Hc Hfree].
    destruct (IH Hfree) as [Hsplit Hin].
    rewrite WordlistFacts.append_cons. cbn [split_first].
    rewrite Ascii.eqb_sym, Hc, Hsplit, char_in_cons, Hin, orb_true_r.
    split; reflexivity.
Qed.

Section Client.
Variable int : string -> result Z.
Variable show : Z -> string.

(** X6: A body made of well-formed lines parses to its pairs, in order: lines
    without a colon are skipped, the others are split at their first colon
    and their counts read back. *)
Theorem parse_lines_round_trip (items : list (string + string * Z)) :
  (forall suffix count, inr (suffix, count) ∈ items -> int (show count) = Ok count) ->
  Forall well_formed items ->
  parse_lines int (map (body_line show) items) = Ok (pairs_of items).
Proof.
  intros Hint Hwf. induction Hwf as [| item items Hitem _ IH]; [reflexivity |].
  cbn [map parse_lines].
  assert (Hrest : parse_lines int (map (body_line show) items) = Ok (pairs_of items)).
  { apply IH. intros suffix count Hin. apply (Hint suffix). right. exact Hin. }
  destruct item as [noise | [suffix count]].
  - cbn [body_line well_formed] in *. rewrite Hitem. exact Hrest.
  - cbn [body_line well_formed] in *.
    destruct (split_first_app suffix (show count) Hitem) as [-> ->].
    rewrite (Hint suffix count) by left. rewrite Hrest. reflexivity.
Qed.

(** One count that [int] rejects spoils the whole body: the request raises
    that error although every other line is fine. *)
Lemma parse_lines_bad_count (before after : list string) (line : string)
    (parsed : list (string * Z)) (e : exn) :
  parse_lines int before = Ok parsed ->
  char_in ":" line = true ->
  int (split_first line).2 = Raise e ->
  parse_lines int (before ++ line :: after) = Raise e.
Proof.
  revert parsed. induction before as [| l before IH]; intros parsed Hbefore Hcolon Hbad.
  - cbn [app parse_lines]. rewrite Hcolon.
    destruct (split_first line) as [suffix count]. cbn [snd] in Hbad.
    rewrite Hbad. reflexivity.
  - cbn [app parse_lines] in *. destruct (char_in ":" l).
    + destruct (split_first l) as [suffix count].
      destruct (int count) as [n | e']; [| discriminate].
      destruct (parse_lines int before) as [ps | e'] eqn:Hps; [| discriminate].
      rewrite (IH ps eq_refl Hcolon Hbad). reflexivity.
    + exact (IH parsed Hbefore Hcolon Hbad).
Qed.

(** X7: A service that keeps answering with a body in which one count is
    unreadable is treated like a service that is down: every attempt
    fails, and check_breach answers (false, 0) after its last attempt, also
    when the body lists the suffix of the password. *)
Theorem check_breach_unreadable_body (password : string)
    (timeout max_retries : Z) (before after : list string) (line : string)
    (parsed : list (string * Z)) (e : exn) :
  password <> "" ->
  1 <= max_retries ->
  parse_lines int before = Ok parsed ->
  char_in ":" line = true ->
  int (split_first line).2 = Raise e ->
  (check_breach
     (api_of int true (fun _ _ _ _ => Responded None (before ++ line :: after)))
     password timeout max_retries).1 = Some (false, 0)
  /\ requests (check_breach
       (api_of int true (fun _ _ _ _ => Responded None (before ++ line :: after)))
       password timeout max_retries).2
     = repeat (sent_prefix password) (Z.to_nat max_retries).
Proof.
  intros Hne Hmax Hbefore Hcolon Hbad.
  destruct (BreachFacts.check_breach_exhausted_effects
              (api_of int true
                 (fun _ _ _ _ => Responded None (before ++ line :: after)))
              password timeout max_retries (fun _ => e) Hne Hmax)
    as (Hres & Hreq & _).
  - intros j _. unfold api_of, _api_request. cbn [negb].
    apply (parse_lines_bad_count _ _ _ _ _ Hbefore Hcolon Hbad).
  - split; assumption.
Qed.

End Client.

(** [int] on plain decimal digits, for the examples; anything else is
    rejected. *)
Fixpoint digits_value (acc : Z) (s : string) : result Z :=
  match s with
  | EmptyString => Ok acc
  | String c rest =>
      if digit c then digits_value (10 * acc + (ord c - 48)) rest
      else Raise (ValueError "invalid literal for int() with base 10")
  end.

Definition int_digits (s : string) : result Z :=
  match s with
  | EmptyString => Raise (ValueError "invalid literal for int() with base 10")
  | _ => digits_value 0 s
  end.

Lemma check_breach_unreadable_body_witness :
  (check_breach
     (api_of int_digits true
        (fun _ _ _ _ =>
           Responded None
             (["1E4C9B93F3F0682250B6CF8331B7EE68FD8:3861493"]
              ++ "00000000000000000000000000000000000:x1" :: [])))
     "password" 10 3).1 = Some (false, 0)
  /\ requests (check_breach
       (api_of int_digits true
          (fun _ _ _ _ =>
             Responded None
               (["1E4C9B93F3F0682250B6CF8331B7EE68FD8:3861493"]
                ++ "00000000000000000000000000000000000:x1" :: [])))
       "password" 10 3).2
     = repeat (sent_prefix "password") (Z.to_nat 3).
Proof.
  apply (check_breach_unreadable_body int_digits "password" 10 3
           ["1E4C9B93F3F0682250B6CF8331B7EE68FD8:3861493"] []
           "00000000000000000000000000000000000:x1"
           [("1E4C9B93F3F0682250B6CF8331B7EE68FD8", 3861493)]
           (ValueError "invalid literal for int() with base 10")).
  - discriminate.
  - lia.
  - reflexivity.
  - reflexivity.
  - reflexivity.
Defined.

Lemma parse_lines_round_trip_witness :
  parse_lines int_digits
    (map (body_line (fun n => if n =? 7 then "7" else "0"))
         [inl "padding"; inr ("ABC", 7); inl ""; inr ("DEF", 0)])
  = Ok [("ABC", 7); ("DEF", 0)].
Proof.
  apply (parse_lines_round_trip int_digits
           (fun n => if n =? 7 then "7" else "0")
           [inl "padding"; inr ("ABC", 7); inl ""; inr ("DEF", 0)]).
  - intros suffix count Hin.
    repeat (apply elem_of_cons in Hin as [Hin | Hin];
            [try discriminate; injection Hin as -> ->; reflexivity |]).
    inversion Hin.
  - repeat constructor.
Defined.

End BreachHttpFacts.

(** ** The breach client against an arbitrary service *)

Module BreachMoreFacts.
Import Breach Spec.

(** The loop, entered with as many iterations left as the bound allows:
    [k] requests, all with the same prefix, and a sleep of [2 ^ attempt]
    seconds after every request but the last. *)
Lemma attempts_effects (_api_request : api) (hash_prefix hash_suffix : string)
    (timeout max_retries : Z) (remaining : nat) :
  forall attempt : Z,
    0 <= attempt ->
    attempt + Z.of_nat remaining = max_retries ->
    exists k : nat,
      (k <= remaining)%nat
      /\ (1 <= remaining -> 1 <= k)%nat
      /\ requests (attempts _api_request hash_prefix hash_suffix timeout
                            max_retries remaining attempt).2
         = repeat hash_prefix k
      /\ sleeps (attempts _api_request hash_prefix hash_suffix timeout
                          max_retries remaining attempt).2
         = map (fun i => 2 ^ (attempt + Z.of_nat i)) (seq 0 (pred k))
      /\ ((1 <= remaining)%nat ->
          (attempts _api_request hash_prefix hash_suffix timeout
                    max_retries remaining attempt).1 <> None).
Proof.
  induction remaining as [| remaining IH]; intros attempt Hpos Hsum.
  - exists 0%nat. repeat split; try reflexivity; lia.
  - rewrite BreachFacts.attempts_step.
    destruct (_api_request attempt hash_prefix timeout) as [suffixes | e].
    + exists 1%nat. repeat split; try reflexivity; try lia. discriminate.
    + destruct (Z.ltb_spec attempt (max_retries - 1)).
      * destruct (IH (attempt + 1)) as (k & Hk & Hk1 & Hreq & Hsleep & Hres);
          [lia | lia |].
        destruct (attempts _api_request hash_prefix hash_suffix timeout
                           max_retries remaining (attempt + 1)) as [r evs].
        cbn [fst snd] in *. exists (S k).
        assert (1 <= k)%nat by (apply Hk1; lia).
        split; [lia |]. split; [lia |]. split; [| split].
        -- unfold requests in *. cbn. rewrite Hreq. reflexivity.
        -- unfold sleeps in *. cbn. rewrite Hsleep.
           destruct k as [| k]; [lia |]. cbn [pred seq map].
           rewrite Z.add_0_r. f_equal.
           rewrite <- seq_shift, map_map. apply map_ext. intros i. f_equal. lia.
        -- intros _. apply Hres. lia.
      * exists 1%nat. repeat split; try reflexivity; try lia. discriminate.
Qed.

(** X8: Whatever the service does, check_breach makes at most max_retries
    requests, each of them with the 5-character prefix of the hash and
    nothing else of it, and sleeps 1, 2, 4, ... seconds between one request
    and the next, so 2 ^ (k - 1) - 1 seconds in all for k requests. *)
Theorem check_breach_effects (_api_request : api) (password : string)
    (timeout max_retries : Z) :
  exists k : nat,
    Z.of_nat k <= Z.max max_retries 0
    /\ requests (check_breach _api_request password timeout max_retries).2
       = repeat (sent_prefix password) k
    /\ sleeps (check_breach _api_request password timeout max_retries).2
       = map (fun i => 2 ^ Z.of_nat i) (seq 0 (pred k))
    /\ foldr Z.add 0
         (sleeps (check_breach _api_request password timeout max_retries).2)
       = 2 ^ Z.of_nat (pred k) - 1.
Proof.
  assert (Hsum : forall n : nat,
            foldr Z.add 0 (map (fun i => 2 ^ Z.of_nat i) (seq 0 n))
            = 2 ^ Z.of_nat n - 1).
  { induction n as [| n IHn]; [reflexivity |].
    rewrite seq_S, map_app, foldr_app. cbn [map foldr seq Nat.add].
    assert (Hshift : forall (l : list Z) (a : Z),
              foldr Z.add a l = foldr Z.add 0 l + a).
    { induction l as [| x l IHl]; intros a; cbn [foldr]; [lia |].
      rewrite IHl. lia. }
    rewrite Hshift, IHn, Nat2Z.inj_succ, Z.pow_succ_r by lia. lia. }
  destruct password as [| c rest].
  - exists 0%nat. repeat split; try reflexivity. lia.
  - rewrite BreachFacts.check_breach_unfold by discriminate.
    destruct (Z.le_gt_cases max_retries 0) as [Hle | Hgt].
    + replace (Z.to_nat max_retries) with 0%nat by lia.
      exists 0%nat. repeat split; try reflexivity. lia.
    + destruct (attempts_effects _api_request (sent_prefix (String c rest))
                  (local_suffix (String c rest)) timeout max_retries
                  (Z.to_nat max_retries) 0)
        as (k & Hk & _ & Hreq & Hsleep & _); [lia | lia |].
      exists k. split; [lia |]. split; [exact Hreq |].
      assert (Hsleeps : sleeps (attempts _api_request (sent_prefix (String c rest))
                          (local_suffix (String c rest)) timeout max_retries
                          (Z.to_nat max_retries) 0).2
                        = map (fun i => 2 ^ Z.of_nat i) (seq 0 (pred k))).
      { rewrite Hsleep. apply map_ext. intros i. f_equal. }
      split; [exact Hsleeps |]. rewrite Hsleeps. apply Hsum.
Qed.

(** X9: check_breach never raises, whatever the service does, and it returns a
    pair except in one case: a non-empty password with max_retries at most
    0, where it returns None. *)
Theorem check_breach_returns_pair (_api_request : api) (password : string)
    (timeout max_retries : Z) :
  (check_breach _api_request password timeout max_retries).1 = None
  <-> password <> "" /\ max_retries <= 0.
Proof.
  destruct password as [| c rest].
  - split; [discriminate | intros [H _]; congruence].
  - rewrite BreachFacts.check_breach_unfold by discriminate.
    destruct (Z.le_gt_cases max_retries 0) as [Hle | Hgt].
    + replace (Z.to_nat max_retries) with 0%nat by lia.
      split; [intros _; split; [discriminate | exact Hle] | reflexivity].
    + destruct (attempts_effects _api_request (sent_prefix (String c rest))
                  (local_suffix (String c rest)) timeout max_retries
                  (Z.to_nat max_retries) 0)
        as (k & _ & _ & _ & _ & Hres); [lia | lia |].
      split; [| lia]. intros Hnone. exfalso. apply Hres; [lia | exact Hnone].
Qed.

End BreachMoreFacts.

(** ** securepass.cli.formatters: the colour of a score *)

Module Formatters.

(** The attributes of [Fore] that colour a score: strings that are put
    in front of the text. *)
Record Fore : Type := {
  RED : string;
  YELLOW : string;
  GREEN : string;
  BLUE : string
}.

(** [colorama.Fore]: the escape sequences of the four colours. *)
Definition colorama : Fore :=
  {| RED := String "027" "[31m";
     YELLOW := String "027" "[33m";
     GREEN := String "027" "[32m";
     BLUE := String "027" "[34m" |}.

(** The class [Fore] of the [except ImportError] branch:
    [RED = YELLOW = GREEN = BLUE = ... = ""]. *)
Definition fallback : Fore :=
  {| RED := ""; YELLOW := ""; GREEN := ""; BLUE := "" |}.

(** The [try: from colorama import ... except ImportError: ...] at the
    head of the module. *)
Definition fore (COLORAMA_AVAILABLE : bool) : Fore :=
  if COLORAMA_AVAILABLE then colorama else fallback.

Definition _get_color_for_score (Fore : Fore) (score : Z) : string :=
  if score <? 40 then RED Fore
  else if score <? 70 then YELLOW Fore
  else if score <? 90 then GREEN Fore
  else BLUE Fore.

(** The counters of [format_batch_summary], one per rating, and its loop
    [ratings[result.strength_rating] += 1], which raises [KeyError] on a
    rating that is not a key. *)
Definition initial_ratings : gmap string Z :=
  <["very_strong" := 0]> (<["strong" := 0]> (<["moderate" := 0]>
    (<["weak" := 0]> ∅))).

Fixpoint count_ratings (ratings : gmap string Z) (results : list string)
  : result (gmap string Z) :=
  match results with
  | [] => Ok ratings
  | strength_rating :: rest =>
      match ratings !! strength_rating with
      | None => Raise (OtherException "KeyError")
      | Some n => count_ratings (<[strength_rating := n + 1]> ratings) rest
      end
  end.

End Formatters.

(** ** More on scores, ratings and pool sizes *)

Module ScoreMoreFacts.
Import Analyzer Spec Formatters.

Lemma criteria_count_bounds (criteria : gmap string bool) :
  0 <= criteria_count criteria <= Z.of_nat (size criteria).
Proof.
  unfold criteria_count. split; [lia |]. apply inj_le.
  apply map_subseteq_size, map_filter_subseteq.
Qed.

Lemma tier_bonus_values (entropy : pyfloat) :
  0 <= tier_bonus entropy <= 20 /\ (tier_bonus entropy) mod 5 = 0.
Proof.
  unfold tier_bonus.
  repeat match goal with |- context [float_ge ?e ?n] => destruct (float_ge e n) end;
    split; (lia || reflexivity).
Qed.

(** X10: The score always lies between 0 and 100 and is a multiple of 5; on a
    mapping of at most eight criteria the cap at 100 has no effect: the
    score is the base plus the bonus. *)
Theorem calculate_strength_score_range (criteria : gmap string bool)
    (entropy : pyfloat) :
  0 <= calculate_strength_score criteria entropy <= 100
  /\ (calculate_strength_score criteria entropy) mod 5 = 0
  /\ ((size criteria <= 8)%nat ->
      calculate_strength_score criteria entropy
      = 10 * criteria_count criteria + tier_bonus entropy).
Proof.
  rewrite ScoreFacts.score_unfold.
  pose proof (criteria_count_bounds criteria) as Hcount.
  destruct (tier_bonus_values entropy) as [Hbonus Hmod].
  split; [lia |]. split.
  - destruct (Z.min_spec (10 * criteria_count criteria + tier_bonus entropy) 100)
      as [[_ ->] | [_ ->]]; [| reflexivity].
    rewrite Z.add_mod, Hmod by lia.
    replace (10 * criteria_count criteria) with (criteria_count criteria * 2 * 5) by lia.
    rewrite Z.mod_mul by lia. reflexivity.
  - intros Hsize. apply Z.min_l. lia.
Qed.

Lemma calculate_strength_score_range_witness :
  calculate_strength_score (uniform_criteria true) (Ffin 80)
  = 10 * criteria_count (uniform_criteria true) + tier_bonus (Ffin 80).
Proof.
  apply (calculate_strength_score_range (uniform_criteria true) (Ffin 80)).
  vm_compute. lia.
Defined.

(** X11: How the rating follows the number of criteria met, whatever the
    entropy: very_strong needs at least seven of them, at most one met is
    always weak, and four or more are never weak. *)
Theorem rating_by_criteria_count (criteria : gmap string bool)
    (entropy : pyfloat) :
  (_determine_rating (calculate_strength_score criteria entropy) = "very_strong"
   -> 7 <= criteria_count criteria)
  /\ (criteria_count criteria <= 1 ->
      _determine_rating (calculate_strength_score criteria entropy) = "weak")
  /\ (4 <= criteria_count criteria ->
      _determine_rating (calculate_strength_score criteria entropy) <> "weak").
Proof.
  rewrite ScoreFacts.score_unfold.
  destruct (tier_bonus_values entropy) as [Hbonus _].
  unfold _determine_rating.
  repeat match goal with
         | |- context [?a <? ?b] => destruct (Z.ltb_spec a b)
         end; repeat split; intros; try discriminate; try reflexivity; lia.
Qed.

Lemma rating_by_criteria_count_witness :
  _determine_rating (calculate_strength_score (uniform_criteria false) (Finf false))
  = "weak"
  /\ _determine_rating (calculate_strength_score (uniform_criteria true) Fnan)
     <> "weak"
  /\ 7 <= criteria_count (uniform_criteria true).
Proof.
  destruct (rating_by_criteria_count (uniform_criteria false) (Finf false))
    as (_ & Hweak & _).
  destruct (rating_by_criteria_count (uniform_criteria true) Fnan)
    as (_ & _ & Hnot).
  destruct (rating_by_criteria_count (uniform_criteria true) (Ffin 75))
    as (Hvery & _).
  split; [| split].
  - apply Hweak. vm_compute. discriminate.
  - apply Hnot. vm_compute. discriminate.
  - apply Hvery. reflexivity.
Defined.

(** A rating is one of the four keys that the batch summary counts. *)
Lemma rating_is_key (score : Z) :
  is_Some (initial_ratings !! _determine_rating score).
Proof.
  unfold _determine_rating.
  repeat match goal with
         | |- context [?a <? ?b] => destruct (Z.ltb_spec a b)
         end; eexists; reflexivity.
Qed.

(** X12: The colour of the formatter follows the rating of the analyzer
    on every score: red for weak, yellow for moderate, green for strong and
    blue for very strong, whatever strings the colours are.  With colorama
    the four colours differ and the colour tells the rating; without it
    every colour is the empty string.  A rating is always one of the four
    keys that the batch summary counts. *)
Theorem colour_matches_rating (COLORAMA_AVAILABLE : bool) (score : Z) :
  let Fore := fore COLORAMA_AVAILABLE in
  (_determine_rating score = "weak" -> _get_color_for_score Fore score = RED Fore)
  /\ (_determine_rating score = "moderate" ->
      _get_color_for_score Fore score = YELLOW Fore)
  /\ (_determine_rating score = "strong" ->
      _get_color_for_score Fore score = GREEN Fore)
  /\ (_determine_rating score = "very_strong" ->
      _get_color_for_score Fore score = BLUE Fore)
  /\ (COLORAMA_AVAILABLE = true ->
      (_get_color_for_score Fore score = RED Fore ->
       _determine_rating score = "weak")
      /\ (_get_color_for_score Fore score = YELLOW Fore ->
          _determine_rating score = "moderate")
      /\ (_get_color_for_score Fore score = GREEN Fore ->
          _determine_rating score = "strong")
      /\ (_get_color_for_score Fore score = BLUE Fore ->
          _determine_rating score = "very_strong"))
  /\ (COLORAMA_AVAILABLE = false -> _get_color_for_score Fore score = "")
  /\ is_Some (initial_ratings !! _determine_rating score).
Proof.
  cbv zeta. destruct COLORAMA_AVAILABLE;
    cbv [fore colorama fallback _get_color_for_score _determine_rating
         RED YELLOW GREEN BLUE];
    repeat match goal with
           | |- context [?a <? ?b] => destruct (Z.ltb_spec a b)
           end;
    repeat split; intros; try reflexivity; try congruence;
    eexists; reflexivity.
Qed.

Lemma colour_matches_rating_witness :
  _get_color_for_score (fore true) 95 = String "027" "[34m"
  /\ _get_color_for_score (fore false) 95 = "".
Proof.
  destruct (colour_matches_rating true 95) as (_ & _ & _ & Hblue & _).
  destruct (colour_matches_rating false 95) as (_ & _ & _ & _ & _ & Hplain & _).
  split; [apply Hblue; reflexivity | apply Hplain; reflexivity].
Defined.

(** Without colorama a weak and a very strong score are shown alike. *)
Example colour_without_colorama :
  _get_color_for_score (fore false) 10 = _get_color_for_score (fore false) 95
  /\ _determine_rating 10 <> _determine_rating 95.
Proof. split; [reflexivity | discriminate]. Qed.

Lemma count_ratings_total (scores : list Z) :
  forall ratings : gmap string Z,
    dom ratings = dom initial_ratings ->
    exists counted,
      count_ratings ratings (map _determine_rating scores) = Ok counted
      /\ dom counted = dom initial_ratings.
Proof.
  induction scores as [| score scores IH]; intros ratings Hdom.
  - exists ratings. split; [reflexivity | exact Hdom].
  - cbn [map count_ratings].
    pose proof (rating_is_key score) as Hkey.
    apply elem_of_dom in Hkey. rewrite <- Hdom in Hkey.
    apply elem_of_dom in Hkey as [n Hn]. rewrite Hn.
    apply IH. rewrite dom_insert_L, Hdom.
    apply subseteq_union_1_L, singleton_subseteq_l.
    rewrite <- Hdom. apply elem_of_dom. eauto.
Qed.

(** Counting the ratings of any list of scores never hits a missing key. *)
Theorem count_ratings_never_fails (scores : list Z) :
  exists counted,
    count_ratings initial_ratings (map _determine_rating scores) = Ok counted.
Proof.
  destruct (count_ratings_total scores initial_ratings eq_refl) as (c & Hc & _).
  eauto.
Qed.

End ScoreMoreFacts.

Module EntropyMoreFacts.
Import Entropy Spec.

Lemma calculate_entropy_unfold (log2 : Z -> pyfloat)
    (fmul : pyfloat -> pyfloat -> pyfloat) (password : string) :
  calculate_entropy log2 fmul password
  = if is_empty password || (class_sum password =? 0) then (zero, 0)
    else (fmul (log2 (class_sum password)) (float_of_int (len password)),
          class_sum password).
Proof.
  unfold calculate_entropy. rewrite EntropyFacts.pool_size_class_sum.
  destruct (is_empty password); [reflexivity |].
  destruct (class_sum password =? 0); reflexivity.
Qed.

Lemma present_app (cls : ascii -> bool) (a b : string) :
  present cls (a ++ b) = present cls a || present cls b.
Proof. unfold present. rewrite GeneratorFacts.chars_app. apply existsb_app. Qed.

Lemma present_false (cls : ascii -> bool) (password : string) :
  present cls password = false <-> forall c, c ∈ chars password -> cls c = false.
Proof.
  unfold present. split.
  - intros Hnone c Hc. destruct (cls c) eqn:Hcls; [| reflexivity].
    rewrite <- Hnone. symmetry. apply existsb_exists. exists c.
    split; [apply list_elem_of_In, Hc | exact Hcls].
  - intros Hall. apply not_true_is_false. intros Hsome.
    apply existsb_exists in Hsome as (c & Hc & Hcls).
    apply list_elem_of_In in Hc. rewrite (Hall c Hc) in Hcls. discriminate.
Qed.

(** X13: The pool size lies between 0 and 94 and never shrinks when characters
    are appended; it is 0 exactly when no character of the password is an
    ASCII letter, digit or punctuation character, and then the entropy
    function returns (0.0, 0) although the password may not be empty. *)
Theorem pool_size_bounds (log2 : Z -> pyfloat)
    (fmul : pyfloat -> pyfloat -> pyfloat) (password more : string) :
  0 <= get_character_pool_size password <= 94
  /\ get_character_pool_size password
     <= get_character_pool_size (password ++ more)
  /\ (get_character_pool_size password = 0
      <-> forall c, c ∈ chars password ->
            lowercase_letter c = false /\ uppercase_letter c = false
            /\ digit c = false /\ ascii_punctuation c = false)
  /\ (get_character_pool_size password = 0 ->
      calculate_entropy log2 fmul password = (zero, 0)).
Proof.
  rewrite !EntropyFacts.pool_size_class_sum.
  split; [| split; [| split]].
  - unfold class_sum.
    repeat match goal with |- context [present ?cls ?p] => destruct (present cls p) end;
      lia.
  - unfold class_sum. rewrite !present_app.
    destruct (present lowercase_letter password),
      (present uppercase_letter password), (present digit password),
      (present ascii_punctuation password); cbn [orb];
      destruct (present lowercase_letter more), (present uppercase_letter more),
        (present digit more), (present ascii_punctuation more); lia.
  - unfold class_sum. split.
    + intros Hzero c Hc.
      destruct (present lowercase_letter password) eqn:Hl,
        (present uppercase_letter password) eqn:Hu,
        (present digit password) eqn:Hd,
        (present ascii_punctuation password) eqn:Hs; try lia.
      rewrite present_false in Hl, Hu, Hd, Hs. auto.
    + intros Hnone.
      rewrite (proj2 (present_false lowercase_letter password))
        by (intros c Hc; apply (Hnone c Hc)).
      rewrite (proj2 (present_false uppercase_letter password))
        by (intros c Hc; apply (Hnone c Hc)).
      rewrite (proj2 (present_false digit password))
        by (intros c Hc; apply (Hnone c Hc)).
      rewrite (proj2 (present_false ascii_punctuation password))
        by (intros c Hc; apply (Hnone c Hc)).
      reflexivity.
  - intros Hzero.
    rewrite (calculate_entropy_unfold log2 fmul password).
    rewrite Hzero, orb_true_r. reflexivity.
Qed.

Lemma pool_size_bounds_witness :
  calculate_entropy (fun _ => Ffin 1) (fun x _ => x) "   " = (zero, 0).
Proof.
  apply (pool_size_bounds (fun _ => Ffin 1) (fun x _ => x) "   " "").
  reflexivity.
Defined.

End EntropyMoreFacts.

(** ** The record of the analyzer *)

Module AnalyzerMoreFacts.
Import Analyzer Spec.

(** [criteria.get(key, False)] *)
Definition get (criteria : gmap string bool) (key : string) : bool :=
  default false (criteria !! key).

(** The size a class adds to the pool when its criterion holds. *)
Definition class_points (criteria : gmap string bool) : Z :=
  (if get criteria "has_lowercase" then 26 else 0)
  + (if get criteria "has_uppercase" then 26 else 0)
  + (if get criteria "has_digits" then 10 else 0)
  + (if get criteria "has_symbols" then 32 else 0).

Section Environment.
Variable lower strip : string -> string.
Variable data_path : string.
Variable log2 : Z -> pyfloat.
Variable fmul : pyfloat -> pyfloat -> pyfloat.
Variable exp2 : Q -> pyfloat.
Variable fdiv : pyfloat -> Z -> pyfloat.
Variable fixed : nat -> pyfloat -> string.
Variable check_breach : string -> result (option (bool * Z)).

(** The criteria that _check_criteria returns, key by key: the dictionary
    check returned, and its answer is the one under no_dictionary_words. *)
Lemma check_criteria_values (password : string)
    (file : Wordlist.data_file) (cache : option (gset string))
    (criteria : gmap string bool) (cache' : option (gset string)) :
  _check_criteria lower strip data_path password file cache
  = (Ok criteria, cache') ->
  exists hit,
    Wordlist.contains_dictionary_word_from lower strip data_path
      password file cache = (Ok hit, cache')
    /\ dom criteria = criteria_names
    /\ criteria !! "min_length" = Some (12 <=? len password)
    /\ criteria !! "has_lowercase" = Some (present lowercase_letter password)
    /\ criteria !! "has_uppercase" = Some (present uppercase_letter password)
    /\ criteria !! "has_digits" = Some (present digit password)
    /\ criteria !! "has_symbols" = Some (present ascii_punctuation password)
    /\ criteria !! "no_common_patterns"
       = Some (negb (Patterns.has_common_pattern lower password))
    /\ criteria !! "no_dictionary_words" = Some (negb hit)
    /\ criteria !! "no_sequential_chars"
       = Some (negb (Patterns.has_sequential_chars_default password)).
Proof.
  unfold _check_criteria.
  destruct (Wordlist.contains_dictionary_word_from lower strip data_path
              password file cache) as [[hit | e] cache1]; [| discriminate].
  intros [= <- <-]. exists hit. split; [reflexivity |].
  rewrite <- EntropyFacts.any_in_lowercase, <- EntropyFacts.any_in_uppercase,
    <- EntropyFacts.any_in_digits, <- EntropyFacts.any_in_punctuation.
  split.
  - rewrite !dom_insert_L, dom_empty_L. unfold criteria_names. set_solver.
  - repeat split; simplify_map_eq; reflexivity.
Qed.

(** The criteria are returned whenever the dictionary check returns. *)
Lemma check_criteria_returns (password : string)
    (file : Wordlist.data_file) (cache cache' : option (gset string))
    (hit : bool) :
  Wordlist.contains_dictionary_word_from lower strip data_path
    password file cache = (Ok hit, cache') ->
  exists criteria,
    _check_criteria lower strip data_path password file cache
    = (Ok criteria, cache').
Proof.
  intros Hhit. unfold _check_criteria. rewrite Hhit. eauto.
Qed.

(** X14: In every record that analyze_password returns the fields agree
    with one another: the criteria are the eight named ones, min_length
    says whether the length is at least 12, the pool size is the sum of the
    class sizes of the four has_... criteria, the score and the rating are
    those of the criteria and the entropy, an empty pool goes with entropy
    0.0, and the crack times are those estimated from the entropy. *)
Theorem analyze_password_consistent (password : string)
    (check_breach_status : bool)
    (file : Wordlist.data_file) (cache : option (gset string))
    (analysis : PasswordAnalysis) (cache' : option (gset string)) :
  analyze_password lower strip data_path log2 fmul exp2 fdiv fixed check_breach
                   password check_breach_status file cache
  = (Ok analysis, cache') ->
  length analysis = len password
  /\ dom (criteria_met analysis) = criteria_names
  /\ get (criteria_met analysis) "min_length" = (12 <=? length analysis)
  /\ character_pool_size analysis = class_points (criteria_met analysis)
  /\ strength_score analysis
     = 10 * criteria_count (criteria_met analysis)
       + tier_bonus (entropy_bits analysis)
  /\ strength_rating analysis = _determine_rating (strength_score analysis)
  /\ (character_pool_size analysis = 0 -> entropy_bits analysis = Entropy.zero)
  /\ CrackTime.estimate_crack_time exp2 fdiv fixed (entropy_bits analysis)
     = Ok (estimated_crack_time analysis).
Proof.
  intros Hrun.
  destruct (AnalyzerFacts.analyze_password_ok _ _ _ _ _ _ _ _ _ _ _ _ _ _ _ Hrun)
    as (criteria & crack_time & Hcriteria & Htime & ->).
  pose proof (EntropyMoreFacts.calculate_entropy_unfold log2 fmul password)
    as Hentropy.
  destruct (check_criteria_values _ _ _ _ _ Hcriteria)
    as (hit & _ & Hdom & Hmin & Hl & Hu & Hd & Hs & _).
  destruct (Entropy.calculate_entropy log2 fmul password) as [bits pool] eqn:Hcalc.
  assert (Hfields : pool = class_sum password /\ (pool = 0 -> bits = Entropy.zero)).
  { destruct (is_empty password) eqn:Hempty;
      destruct (Z.eqb_spec (class_sum password) 0) as [Hzero | Hnonzero];
      cbn [orb] in Hentropy; injection Hentropy as -> ->.
    - split; [destruct password; [reflexivity | discriminate] | reflexivity].
    - split; [destruct password; [reflexivity | discriminate] | reflexivity].
    - split; [congruence | reflexivity].
    - split; [reflexivity | congruence]. }
  destruct Hfields as [-> Hzero]. cbn [fst snd] in *.
  cbn [length criteria_met character_pool_size strength_score strength_rating
       entropy_bits estimated_crack_time].
  assert (Hpoints : class_points criteria = class_sum password).
  { unfold class_points, class_sum, get. rewrite Hl, Hu, Hd, Hs. reflexivity. }
  split; [reflexivity |]. split; [exact Hdom |].
  split; [unfold get; rewrite Hmin; reflexivity |].
  rewrite Hpoints. split; [reflexivity |].
  split; [| split; [reflexivity | split; [exact Hzero | exact Htime]]].
  rewrite ScoreFacts.score_unfold. apply Z.min_l.
  pose proof (ScoreMoreFacts.criteria_count_bounds criteria) as Hcount.
  destruct (ScoreMoreFacts.tier_bonus_values bits) as [Hbonus _].
  assert (Hsize : size criteria = 8%nat)
    by (rewrite <- size_dom, Hdom; vm_compute; reflexivity).
  lia.
Qed.

End Environment.

Lemma analyze_password_consistent_witness :
  exists analysis cache',
    analyze_password WordlistFacts.lower_ascii WordlistFacts.strip_newline "data"
      FloatSamples.log2 FloatSamples.fmul
      FloatSamples.exp2 FloatSamples.fdiv
      FloatSamples.fixed (fun _ => Ok (Some (false, 0)))
      "   " false Wordlist.Absent None
    = (Ok analysis, cache')
    /\ character_pool_size analysis = 0
    /\ entropy_bits analysis = Entropy.zero.
Proof.
  destruct (analyze_password WordlistFacts.lower_ascii
              WordlistFacts.strip_newline "data"
              FloatSamples.log2 FloatSamples.fmul
              FloatSamples.exp2 FloatSamples.fdiv
              FloatSamples.fixed (fun _ => Ok (Some (false, 0)))
              "   " false Wordlist.Absent None)
    as [[analysis | e] cache'] eqn:Hrun.
  - exists analysis, cache'. split; [reflexivity |].
    destruct (analyze_password_consistent _ _ _ _ _ _ _ _ _ _ _ _ _ _ _ Hrun)
      as (_ & _ & _ & _ & _ & _ & Hzero & _).
    assert (Hempty : character_pool_size analysis = 0).
    { vm_compute in Hrun. injection Hrun as <- _. reflexivity. }
    split; [exact Hempty | apply Hzero; exact Hempty].
  - vm_compute in Hrun. discriminate Hrun.
Defined.

End AnalyzerMoreFacts.

(** ** The crack-time step of the analyzer *)

Module CrackTimeFacts.
Import Analyzer Spec.

Definition OVERFLOW : exn :=
  OtherException "OverflowError: (34, 'Numerical result out of range')".

Definition crack_time_keys : gset string :=
  {[ "online_attack_100_per_second" ]} ∪ {[ "offline_attack_10B_per_second" ]}.

(** The estimates of 40 and of 32 bits. *)
Example estimate_crack_time_40_bits :
  CrackTime.estimate_crack_time FloatSamples.exp2 FloatSamples.fdiv
    FloatSamples.fixed (Ffin 40)
  = Ok (<["offline_attack_10B_per_second" := "1.8 minutes"]>
          (<["online_attack_100_per_second" := "3.5 centuries"]> ∅)).
Proof. vm_compute. reflexivity. Qed.

Example estimate_crack_time_32_bits :
  CrackTime.estimate_crack_time FloatSamples.exp2 FloatSamples.fdiv
    FloatSamples.fixed (Ffin 32)
  = Ok (<["offline_attack_10B_per_second" := "0.429 seconds"]>
          (<["online_attack_100_per_second" := "1.4 years"]> ∅)).
Proof. vm_compute. reflexivity. Qed.

Section Environment.
Variable lower strip : string -> string.
Variable data_path : string.
Variable log2 : Z -> pyfloat.
Variable fmul : pyfloat -> pyfloat -> pyfloat.
Variable exp2 : Q -> pyfloat.
Variable fdiv : pyfloat -> Z -> pyfloat.
Variable fixed : nat -> pyfloat -> string.
Variable check_breach : string -> result (option (bool * Z)).

(** estimate_crack_time raises for a finite entropy from 1024 bits on,
    with OverflowError, and for no other; what it returns has the two
    keys. *)
Lemma estimate_crack_time_cases (entropy_bits : pyfloat) :
  match CrackTime.estimate_crack_time exp2 fdiv fixed entropy_bits with
  | Raise e =>
      e = OVERFLOW
      /\ exists q, entropy_bits = Ffin q /\ Qle_bool 1024 q = true
  | Ok crack_time =>
      dom crack_time = crack_time_keys
      /\ forall q, entropy_bits = Ffin q -> Qle_bool 1024 q = false
  end.
Proof.
  unfold CrackTime.estimate_crack_time.
  destruct (float_le entropy_bits 0) eqn:Hle.
  - split; [rewrite !dom_insert_L, dom_empty_L; unfold crack_time_keys; set_solver |].
    intros q ->. cbn in Hle. apply Qle_bool_iff in Hle.
    destruct (Qle_bool 1024 q) eqn:Hbig; [| reflexivity].
    apply Qle_bool_iff in Hbig.
    pose proof (Qle_trans _ _ _ Hbig Hle) as Habsurd.
    unfold Qle in Habsurd. cbn in Habsurd. lia.
  - destruct entropy_bits as [| negative | q]; cbn [CrackTime.pow2].
    + split; [rewrite !dom_insert_L, dom_empty_L; unfold crack_time_keys; set_solver |].
      intros q [=].
    + split; [rewrite !dom_insert_L, dom_empty_L; unfold crack_time_keys; set_solver |].
      intros q [=].
    + destruct (Qle_bool 1024 q) eqn:Hbig.
      * split; [reflexivity | eauto].
      * split; [rewrite !dom_insert_L, dom_empty_L; unfold crack_time_keys; set_solver |].
        intros q' [= <-]. exact Hbig.
Qed.

(** X19: analyze_password returns a record exactly when the dictionary
    check returns and the entropy is not a finite float of 1024 bits or
    more; with such an entropy it raises, and it raises OverflowError when
    the dictionary check returned. *)
Theorem analyze_password_returns_iff (password : string)
    (check_breach_status : bool)
    (file : Wordlist.data_file) (cache : option (gset string)) :
  ((exists analysis cache',
      analyze_password lower strip data_path log2 fmul exp2 fdiv fixed
        check_breach password check_breach_status file cache
      = (Ok analysis, cache'))
   <-> (exists hit cache',
          Wordlist.contains_dictionary_word_from lower strip data_path
            password file cache = (Ok hit, cache'))
       /\ (forall q, (Entropy.calculate_entropy log2 fmul password).1 = Ffin q ->
                     Qle_bool 1024 q = false))
  /\ (forall q hit cache',
        (Entropy.calculate_entropy log2 fmul password).1 = Ffin q ->
        Qle_bool 1024 q = true ->
        Wordlist.contains_dictionary_word_from lower strip data_path
          password file cache = (Ok hit, cache') ->
        analyze_password lower strip data_path log2 fmul exp2 fdiv fixed
          check_breach password check_breach_status file cache
        = (Raise OVERFLOW, cache')).
Proof.
  pose proof (estimate_crack_time_cases
                (Entropy.calculate_entropy log2 fmul password).1) as Hcases.
  split; [split |].
  - intros (analysis & cache' & Hrun).
    destruct (AnalyzerFacts.analyze_password_ok _ _ _ _ _ _ _ _ _ _ _ _ _ _ _ Hrun)
      as (criteria & crack_time & Hcriteria & Htime & _).
    destruct (AnalyzerMoreFacts.check_criteria_values _ _ _ _ _ _ _ _ Hcriteria)
      as (hit & Hhit & _).
    split; [eauto |]. rewrite Htime in Hcases. apply Hcases.
  - intros [(hit & cache' & Hhit) Hsmall].
    destruct (AnalyzerMoreFacts.check_criteria_returns _ _ _ _ _ _ _ _ Hhit)
      as (criteria & Hcriteria).
    destruct (CrackTime.estimate_crack_time exp2 fdiv fixed
                (Entropy.calculate_entropy log2 fmul password).1)
      as [crack_time | e] eqn:Htime.
    + destruct (AnalyzerFacts.analyze_password_returns lower strip data_path
                  log2 fmul exp2 fdiv fixed check_breach password
                  check_breach_status file cache cache' criteria crack_time
                  Hcriteria Htime) as (analysis & Hrun).
      eauto.
    + destruct Hcases as (_ & q & Hbits & Hbig).
      rewrite (Hsmall q Hbits) in Hbig. discriminate Hbig.
  - intros q hit cache' Hbits Hbig Hhit.
    destruct (AnalyzerMoreFacts.check_criteria_returns _ _ _ _ _ _ _ _ Hhit)
      as (criteria & Hcriteria).
    unfold analyze_password.
    destruct (Entropy.calculate_entropy log2 fmul password) as [bits pool].
    cbn [fst] in *. rewrite Hcriteria.
    destruct (CrackTime.estimate_crack_time exp2 fdiv fixed bits)
      as [crack_time | e].
    + destruct Hcases as [_ Hsmall]. rewrite (Hsmall q Hbits) in Hbig.
      discriminate Hbig.
    + destruct Hcases as [-> _]. reflexivity.
Qed.

End Environment.

(** A password of 256 lowercase letters: the criteria are computed, the
    power overflows, and there is no record. *)
Example analyze_password_long :
  analyze_password WordlistFacts.lower_ascii WordlistFacts.strip_newline "data"
    FloatSamples.log2 FloatSamples.fmul FloatSamples.exp2 FloatSamples.fdiv
    FloatSamples.fixed (fun _ => Ok (Some (false, 0)))
    (join (repeat "a"%char 256)) false Wordlist.Absent None
  = (Raise OVERFLOW, None).
Proof. vm_compute. reflexivity. Qed.

End CrackTimeFacts.


(** ** securepass.core.analyzer, continued: the recommendations *)

Module Recommendations.
Import Analyzer.

(** [x < n] for a float [x] and an integer literal [n]. *)
Definition float_lt (x : pyfloat) (n : Z) : bool :=
  match x with
  | Fnan => false
  | Finf negative => negative
  | Ffin q => negb (Qle_bool (inject_Z n) q)
  end.

(** The digits of a number from the last one on, with a comma after every
    third digit that has more digits before it. *)
Fixpoint commas_rev (digits_rev : list ascii) : list ascii :=
  match digits_rev with
  | a :: b :: c :: (_ :: _) as more => a :: b :: c :: ","%char :: commas_rev more
  | _ => digits_rev
  end.

(** The format [{count:,}] of an integer: decimal digits in groups of
    three, a minus sign before a negative number. *)
Definition format_commas (count : Z) : string :=
  (if count <? 0 then "-" else "")
  ++ join (rev (commas_rev
       (rev (chars (DecimalString.NilZero.string_of_uint
                      (N.to_uint (Z.to_N (Z.abs count)))))))).

(** The messages, their characters outside ASCII as UTF-8 bytes. *)
Definition TOO_SHORT : string :=
  "⚠️ CRITICAL: Password is too short. Use at least 8 characters (12+ recommended)".
Definition INCREASE_LENGTH : string :=
  "Increase length to at least 12 characters for better security".
Definition ADD_LOWERCASE : string :=
  "Add lowercase letters (a-z)".
Definition ADD_UPPERCASE : string :=
  "Add uppercase letters (A-Z)".
Definition ADD_NUMBERS : string :=
  "Add numbers (0-9)".
Definition ADD_SYMBOLS : string :=
  "Add symbols (!@#$%^&* etc.)".
Definition COMMON_PATTERN : string :=
  "⚠️ Contains common pattern (e.g., 'password', '123456'). Use unique password".
Definition DICTIONARY_WORD : string :=
  "⚠️ Contains dictionary word. Avoid common words".
Definition SEQUENTIAL : string :=
  "Avoid sequential characters (e.g., 'abc', '123')".
Definition FOUND_PREFIX : string :=
  "🚨 CRITICAL: Password found in ".
Definition FOUND_MIDDLE : string :=
  " data breaches! ".
Definition FOUND_SUFFIX : string :=
  "Change this password immediately!".
Definition LOW_ENTROPY : string :=
  "Password entropy is low. Make it longer and more random".
Definition BEST_PRACTICES : string :=
  "✓ Password meets security best practices".

(** [criteria.get(key, False)] *)
Definition get (criteria : gmap string bool) (key : string) : bool :=
  default false (criteria !! key).

(** [if cond: recommendations.append(message)] *)
Definition append_if (cond : bool) (message : string)
    (recommendations : list string) : list string :=
  if cond then (recommendations ++ [message])%list else recommendations.

Definition get_recommendations (analysis : PasswordAnalysis) : list string :=
  let recommendations : list string := [] in
  let criteria := criteria_met analysis in
  let recommendations :=
    if negb (get criteria "min_length") then
      if length analysis <? 8 then (recommendations ++ [TOO_SHORT])%list
      else if length analysis <? 12 then
        (recommendations ++ [INCREASE_LENGTH])%list
      else recommendations
    else recommendations in
  let recommendations :=
    append_if (negb (get criteria "has_lowercase")) ADD_LOWERCASE recommendations in
  let recommendations :=
    append_if (negb (get criteria "has_uppercase")) ADD_UPPERCASE recommendations in
  let recommendations :=
    append_if (negb (get criteria "has_digits")) ADD_NUMBERS recommendations in
  let recommendations :=
    append_if (negb (get criteria "has_symbols")) ADD_SYMBOLS recommendations in
  let recommendations :=
    append_if (negb (get criteria "no_common_patterns")) COMMON_PATTERN
              recommendations in
  let recommendations :=
    append_if (negb (get criteria "no_dictionary_words")) DICTIONARY_WORD
              recommendations in
  let recommendations :=
    append_if (negb (get criteria "no_sequential_chars")) SEQUENTIAL
              recommendations in
  let recommendations :=
    if found (breach analysis) then
      let count := occurrence_count (breach analysis) in
      let message :=
        FOUND_PREFIX ++ format_commas count ++ FOUND_MIDDLE ++ FOUND_SUFFIX in
      (recommendations ++ [message])%list
    else recommendations in
  let recommendations :=
    append_if (float_lt (entropy_bits analysis) 40) LOW_ENTROPY recommendations in
  match recommendations with
  | [] => (recommendations ++ [BEST_PRACTICES])%list
  | _ => recommendations
  end.

(** The record has nothing that a recommendation is written for. *)
Definition no_issue (analysis : PasswordAnalysis) : Prop :=
  (get (criteria_met analysis) "min_length" = true \/ 12 <= length analysis)
  /\ get (criteria_met analysis) "has_lowercase" = true
  /\ get (criteria_met analysis) "has_uppercase" = true
  /\ get (criteria_met analysis) "has_digits" = true
  /\ get (criteria_met analysis) "has_symbols" = true
  /\ get (criteria_met analysis) "no_common_patterns" = true
  /\ get (criteria_met analysis) "no_dictionary_words" = true
  /\ get (criteria_met analysis) "no_sequential_chars" = true
  /\ found (breach analysis) = false
  /\ float_lt (entropy_bits analysis) 40 = false.

End Recommendations.

Module RecommendationsFacts.
Import Analyzer Recommendations Spec.

(** The message a condition contributes. *)
Definition opt (cond : bool) (message : string) : list string :=
  if cond then [message] else [].

Definition length_advice (analysis : PasswordAnalysis) : list string :=
  if negb (get (criteria_met analysis) "min_length") then
    if length analysis <? 8 then [TOO_SHORT]
    else if length analysis <? 12 then [INCREASE_LENGTH]
    else []
  else [].

Definition found_message (analysis : PasswordAnalysis) : string :=
  FOUND_PREFIX ++ format_commas (occurrence_count (breach analysis))
    ++ FOUND_MIDDLE ++ FOUND_SUFFIX.

(** The recommendations before the closing test, in the order of the
    checks. *)
Definition issues (analysis : PasswordAnalysis) : list string :=
  (length_advice analysis
   ++ opt (negb (get (criteria_met analysis) "has_lowercase")) ADD_LOWERCASE
   ++ opt (negb (get (criteria_met analysis) "has_uppercase")) ADD_UPPERCASE
   ++ opt (negb (get (criteria_met analysis) "has_digits")) ADD_NUMBERS
   ++ opt (negb (get (criteria_met analysis) "has_symbols")) ADD_SYMBOLS
   ++ opt (negb (get (criteria_met analysis) "no_common_patterns")) COMMON_PATTERN
   ++ opt (negb (get (criteria_met analysis) "no_dictionary_words")) DICTIONARY_WORD
   ++ opt (negb (get (criteria_met analysis) "no_sequential_chars")) SEQUENTIAL
   ++ opt (found (breach analysis)) (found_message analysis)
   ++ opt (float_lt (entropy_bits analysis) 40) LOW_ENTROPY)%list.

Lemma append_if_opt (cond : bool) (message : string) (l : list string) :
  append_if cond message l = (l ++ opt cond message)%list.
Proof. destruct cond; simpl; [reflexivity | rewrite app_nil_r; reflexivity]. Qed.

Lemma get_recommendations_issues (analysis : PasswordAnalysis) :
  get_recommendations analysis
  = match issues analysis with
    | [] => [BEST_PRACTICES]
    | _ => issues analysis
    end.
Proof.
  unfold get_recommendations. cbv zeta. rewrite !append_if_opt.
  match goal with
  | |- match ?l with _ => _ end = _ => assert (Hl : l = issues analysis)
  end.
  { unfold issues, length_advice, found_message.
    destruct (negb (get (criteria_met analysis) "min_length")),
      (length analysis <? 8), (length analysis <? 12), (found (breach analysis));
      cbn [opt app]; rewrite ?app_nil_r, <- ?app_assoc; reflexivity. }
  rewrite Hl. destruct (issues analysis); reflexivity.
Qed.

Lemma opt_nil (cond : bool) (message : string) :
  opt cond message = [] <-> cond = false.
Proof. destruct cond; simpl; split; congruence. Qed.

Lemma opt_length (cond : bool) (message : string) :
  (List.length (opt cond message) <= 1)%nat.
Proof. destruct cond; simpl; lia. Qed.

Lemma opt_not_in (cond : bool) (message other : string) :
  message <> other -> other ∉ opt cond message.
Proof.
  intros Hne Hin. destruct cond; simpl in Hin; [| inversion Hin].
  apply list_elem_of_singleton in Hin. congruence.
Qed.

Lemma found_message_other (analysis : PasswordAnalysis) :
  found_message analysis <> BEST_PRACTICES.
Proof.
  unfold found_message, FOUND_PREFIX, BEST_PRACTICES.
  rewrite WordlistFacts.append_cons. discriminate.
Qed.

Lemma best_practices_not_an_issue (analysis : PasswordAnalysis) :
  BEST_PRACTICES ∉ issues analysis.
Proof.
  unfold issues. rewrite !elem_of_app.
  intros [H | [H | [H | [H | [H | [H | [H | [H | [H | H]]]]]]]]];
    try (revert H; apply opt_not_in; first [discriminate | apply found_message_other]).
  unfold length_advice in H.
  repeat match type of H with
         | context [if ?c then _ else _] => destruct c
         end;
    first [ inversion H; fail
          | apply list_elem_of_singleton in H; discriminate H ].
Qed.

Lemma issues_nil (analysis : PasswordAnalysis) :
  issues analysis = [] <-> no_issue analysis.
Proof.
  unfold issues, no_issue.
  repeat rewrite app_nil. rewrite !opt_nil, !negb_false_iff.
  assert (Hlen : length_advice analysis = []
                 <-> get (criteria_met analysis) "min_length" = true
                     \/ 12 <= length analysis).
  { unfold length_advice. destruct (get (criteria_met analysis) "min_length");
      cbn [negb]; [tauto |].
    destruct (Z.ltb_spec (length analysis) 8);
      [split; [discriminate | intros [? | ?]; [discriminate | lia]] |].
    destruct (Z.ltb_spec (length analysis) 12);
      [split; [discriminate | intros [? | ?]; [discriminate | lia]] |].
    split; [right; assumption | reflexivity]. }
  rewrite Hlen. tauto.
Qed.

Lemma issues_length (analysis : PasswordAnalysis) :
  (List.length (issues analysis) <= 10)%nat.
Proof.
  unfold issues. rewrite !length_app.
  assert (List.length (length_advice analysis) <= 1)%nat.
  { unfold length_advice.
    repeat match goal with |- context [if ?c then _ else _] => destruct c end;
      simpl; lia. }
  repeat match goal with
         | |- context [List.length (opt ?c ?m)] =>
             pose proof (opt_length c m); generalize dependent (List.length (opt c m));
             intros
         end.
  lia.
Qed.

(** X15: get_recommendations always returns between one and ten messages; the
    message that all is well is returned exactly when it is the only one,
    and that is exactly when the record shows no issue: every criterion
    other than the length present and true, the length criterion true or
    the length at least 12, no breach found, and the entropy not below 40
    (an entropy that is not a number counts as not below). *)
Theorem get_recommendations_spec (analysis : PasswordAnalysis) :
  (1 <= List.length (get_recommendations analysis) <= 10)%nat
  /\ (BEST_PRACTICES ∈ get_recommendations analysis
      <-> get_recommendations analysis = [BEST_PRACTICES])
  /\ (get_recommendations analysis = [BEST_PRACTICES] <-> no_issue analysis).
Proof.
  rewrite get_recommendations_issues, <- issues_nil.
  pose proof (issues_length analysis) as Hlen.
  pose proof (best_practices_not_an_issue analysis) as Hnot.
  destruct (issues analysis) as [| first rest] eqn:Hissues.
  - split; [simpl; lia |]. split; [| tauto].
    split; [reflexivity | intros _; left].
  - split; [simpl in *; lia |].
    assert (Hother : first :: rest <> [BEST_PRACTICES]).
    { intros Heq. apply Hnot. rewrite Heq. left. }
    split; split; intros H; try contradiction; discriminate.
Qed.

(** The record of a six-character password that fails every check and was
    found in 3861493 breaches. *)
Definition sample_analysis : PasswordAnalysis :=
  {| strength_score := 0; strength_rating := "weak"; length := 6;
     entropy_bits := Ffin 28; character_pool_size := 26;
     criteria_met := uniform_criteria false;
     breach := {| checked := true; found := true;
                  occurrence_count := 3861493 |};
     estimated_crack_time :=
       <["offline_attack_10B_per_second" := "0.027 seconds"]>
         (<["online_attack_100_per_second" := "1.0 months"]> ∅) |}.

Example get_recommendations_sample :
  get_recommendations sample_analysis
  = [ TOO_SHORT; ADD_LOWERCASE; ADD_UPPERCASE; ADD_NUMBERS; ADD_SYMBOLS;
      COMMON_PATTERN; DICTIONARY_WORD; SEQUENTIAL;
      FOUND_PREFIX ++ "3,861,493" ++ FOUND_MIDDLE ++ FOUND_SUFFIX;
      LOW_ENTROPY ].
Proof. vm_compute. reflexivity. Qed.

End RecommendationsFacts.

(** ** How the parts compose *)

Module CompositionFacts.
Import Analyzer Recommendations Spec.

Lemma all_true_gets (criteria : gmap string bool) :
  dom criteria = criteria_names ->
  all_criteria true criteria
  <-> get criteria "min_length" = true
      /\ get criteria "has_lowercase" = true
      /\ get criteria "has_uppercase" = true
      /\ get criteria "has_digits" = true
      /\ get criteria "has_symbols" = true
      /\ get criteria "no_common_patterns" = true
      /\ get criteria "no_dictionary_words" = true
      /\ get criteria "no_sequential_chars" = true.
Proof.
  intros Hdom. unfold all_criteria, get. split.
  - intros Hall.
    assert (Hkey : forall k, k ∈ criteria_names -> default false (criteria !! k) = true).
    { intros k Hk. rewrite <- Hdom in Hk. apply elem_of_dom in Hk as [v Hv].
      rewrite Hv. exact (Hall k v Hv). }
    repeat split; apply Hkey; unfold criteria_names; set_solver.
  - intros (H1 & H2 & H3 & H4 & H5 & H6 & H7 & H8) k v Hkv.
    assert (Hk : k ∈ criteria_names) by (rewrite <- Hdom; apply elem_of_dom; eauto).
    unfold criteria_names in Hk.
    repeat (apply elem_of_union in Hk as [Hk | Hk]);
      apply elem_of_singleton in Hk; subst k; rewrite Hkv in *; assumption.
Qed.

Section Environment.
Variable lower strip : string -> string.
Variable data_path : string.
Variable log2 : Z -> pyfloat.
Variable fmul : pyfloat -> pyfloat -> pyfloat.
Variable exp2 : Q -> pyfloat.
Variable fdiv : pyfloat -> Z -> pyfloat.
Variable fixed : nat -> pyfloat -> string.
Variable check_breach : string -> result (option (bool * Z)).

(** X16: For every record that analyze_password returns, the
    recommendations are the single all-is-well message exactly when all
    eight criteria hold, no breach was found and the entropy is not below
    40; a password shorter than 8 gets the too-short warning first, and one
    of 8 to 11 characters the advice to increase the length first. *)
Theorem analyze_password_recommendations (password : string)
    (check_breach_status : bool)
    (file : Wordlist.data_file) (cache : option (gset string))
    (analysis : PasswordAnalysis) (cache' : option (gset string)) :
  analyze_password lower strip data_path log2 fmul exp2 fdiv fixed check_breach
                   password check_breach_status file cache
  = (Ok analysis, cache') ->
  (get_recommendations analysis = [BEST_PRACTICES]
   <-> all_criteria true (criteria_met analysis)
       /\ found (breach analysis) = false
       /\ float_lt (entropy_bits analysis) 40 = false)
  /\ (len password < 8 ->
      head (get_recommendations analysis) = Some TOO_SHORT)
  /\ (8 <= len password < 12 ->
      head (get_recommendations analysis) = Some INCREASE_LENGTH).
Proof.
  intros Hrun.
  destruct (AnalyzerFacts.analyze_password_ok _ _ _ _ _ _ _ _ _ _ _ _ _ _ _ Hrun)
    as (criteria & crack_time & Hcriteria & _ & Hrecord).
  destruct (AnalyzerMoreFacts.check_criteria_values _ _ _ _ _ _ _ _ Hcriteria)
    as (hit & _ & Hdom' & Hmin' & _).
  assert (Hlen : length analysis = len password) by (rewrite Hrecord; reflexivity).
  assert (Hdom : dom (criteria_met analysis) = criteria_names)
    by (rewrite Hrecord; exact Hdom').
  assert (Hmin : get (criteria_met analysis) "min_length"
                 = (12 <=? length analysis)).
  { rewrite Hrecord. cbn [criteria_met length]. unfold get.
    rewrite Hmin'. reflexivity. }
  clear Hrecord Hdom' Hmin' Hcriteria Hrun.
  split; [| split].
  - destruct (RecommendationsFacts.get_recommendations_spec analysis)
      as (_ & _ & ->).
    rewrite (all_true_gets _ Hdom). unfold no_issue. rewrite Hmin.
    destruct (Z.leb_spec 12 (length analysis)); intuition (congruence || lia).
  - intros Hshort. rewrite RecommendationsFacts.get_recommendations_issues.
    unfold RecommendationsFacts.issues, RecommendationsFacts.length_advice.
    rewrite Hmin, Hlen.
    destruct (Z.leb_spec 12 (len password)); [lia |]. cbn [negb].
    destruct (Z.ltb_spec (len password) 8); [| lia]. reflexivity.
  - intros Hmid. rewrite RecommendationsFacts.get_recommendations_issues.
    unfold RecommendationsFacts.issues, RecommendationsFacts.length_advice.
    rewrite Hmin, Hlen.
    destruct (Z.leb_spec 12 (len password)); [lia |]. cbn [negb].
    destruct (Z.ltb_spec (len password) 8); [lia |].
    destruct (Z.ltb_spec (len password) 12); [| lia]. reflexivity.
Qed.

End Environment.

Lemma analyze_password_recommendations_witness :
  exists analysis cache',
    analyze_password WordlistFacts.lower_ascii WordlistFacts.strip_newline "data"
      FloatSamples.log2 FloatSamples.fmul
      FloatSamples.exp2 FloatSamples.fdiv
      FloatSamples.fixed (fun _ => Ok (Some (false, 0)))
      "abc" false Wordlist.Absent None
    = (Ok analysis, cache')
    /\ head (get_recommendations analysis) = Some TOO_SHORT.
Proof.
  destruct (analyze_password WordlistFacts.lower_ascii
              WordlistFacts.strip_newline "data"
              FloatSamples.log2 FloatSamples.fmul
              FloatSamples.exp2 FloatSamples.fdiv
              FloatSamples.fixed (fun _ => Ok (Some (false, 0)))
              "abc" false Wordlist.Absent None)
    as [[analysis | e] cache'] eqn:Hrun.
  - exists analysis, cache'. split; [reflexivity |].
    destruct (analyze_password_recommendations _ _ _ _ _ _ _ _ _ _ _ _ _ _ _ Hrun)
      as (_ & Hshort & _).
    apply Hshort. vm_compute. reflexivity.
  - vm_compute in Hrun. discriminate Hrun.
Defined.

(** X17: The pool size that the analyzer finds in a generated password is the
    sum of the sizes of the classes that were requested: every requested
    class is seen and no other, and the password is not empty. *)
Theorem generated_password_pool (requested : pyobj) (n : Z)
    (use_lowercase use_uppercase use_digits use_symbols avoid_ambiguous : bool)
    (g : Generator.rng) :
  as_int requested = Some n ->
  8 <= n <= 128 ->
  use_lowercase || use_uppercase || use_digits || use_symbols = true ->
  exists password g',
    Generator.generate_password requested use_lowercase use_uppercase
      use_digits use_symbols avoid_ambiguous g = (Ok password, g')
    /\ password <> ""
    /\ Entropy.get_character_pool_size password
       = (if use_lowercase then 26 else 0) + (if use_uppercase then 26 else 0)
         + (if use_digits then 10 else 0) + (if use_symbols then 32 else 0).
Proof.
  intros Hint Hn Hsome.
  destruct (GeneratorFacts.generate_password_valid requested n use_lowercase
              use_uppercase use_digits use_symbols avoid_ambiguous Hint Hn Hsome g)
    as (password & g' & Hrun & Hlen & Hallowed & Hl & Hu & Hd & Hs).
  exists password, g'. split; [exact Hrun |]. split.
  - intros ->. unfold len in Hlen. simpl in Hlen. lia.
  - rewrite EntropyFacts.pool_size_class_sum. unfold class_sum.
    assert (Hpresent : forall (cls : ascii -> bool) (use : bool),
              (use = true -> has_char cls password) ->
              (use = false -> forall c, c ∈ chars password -> cls c = false) ->
              present cls password = use).
    { intros cls use Hyes Hno. destruct use.
      - destruct (Hyes eq_refl) as (c & Hc & Hcls). unfold present.
        apply existsb_exists. exists c.
        split; [apply list_elem_of_In, Hc | exact Hcls].
      - apply EntropyMoreFacts.present_false. exact (Hno eq_refl). }
    rewrite (Hpresent lowercase_letter use_lowercase Hl),
      (Hpresent uppercase_letter use_uppercase Hu),
      (Hpresent digit use_digits Hd),
      (Hpresent ascii_punctuation use_symbols Hs); [reflexivity | | | |];
      intros Hoff c Hc;
      destruct (GeneratorFacts.allowed_excludes _ _ _ _ _ _ (Hallowed c Hc))
        as (Hl' & Hu' & Hd' & Hs'); auto.
Qed.

Lemma generated_password_pool_witness :
  exists password g',
    Generator.generate_password (PyInt 16) true true true false true
      GeneratorFacts.sample_rng = (Ok password, g')
    /\ password <> ""
    /\ Entropy.get_character_pool_size password = 62.
Proof.
  destruct (generated_password_pool (PyInt 16) 16 true true true false true
              GeneratorFacts.sample_rng)
    as (password & g' & Hrun & Hne & Hpool); [reflexivity | lia | reflexivity |].
  exists password, g'. split; [exact Hrun |]. split; [exact Hne | exact Hpool].
Defined.

End CompositionFacts.

(** ** The format of the hash *)

Module HashFacts.
Import Breach Spec.

(** X18: For every password, the empty one included, the hash is 40 characters
    of uppercase hexadecimal, and it is the prefix of 5 characters that is
    sent followed by the suffix of 35 that is kept. *)
Theorem sha1_hash_format (password : string) :
  String.length (_sha1_hash password) = 40%nat
  /\ (forall c, c ∈ chars (_sha1_hash password) -> c ∈ chars "0123456789ABCDEF")
  /\ _sha1_hash password = sent_prefix password ++ local_suffix password
  /\ String.length (sent_prefix password) = 5%nat
  /\ String.length (local_suffix password) = 35%nat.
Proof.
  split; [apply BreachFacts.sha1_hash_length |].
  split; [apply BreachFacts.sha1_hash_uppercase_hex |].
  apply BreachFacts.hash_split.
Qed.

Lemma sha1_hash_format_witness :
  ("B"%char : ascii) ∈ chars "0123456789ABCDEF".
Proof.
  apply (sha1_hash_format "password"). vm_compute. do 1 right. left.
Defined.

End HashFacts.
